(** * BSON builder and config value dictionary of userver

    Shallow embedding of
    - [mongo/src/formats/bson/bson_builder.cpp]  (formats::bson::impl::BsonBuilder)
    - [core/include/taxi_config/value.hpp]       (taxi_config::ValueDict)

    C++ exceptions are modelled by a small state-and-exception monad: a
    member function is a function from the object's state to an outcome
    (normal return or raised exception) together with the state the object is
    left in.  libbson documents are modelled as element lists together with
    their wire serialisation [bson_get_data]. *)

From Stdlib Require Import ZArith List String Ascii Lia Bool.
From stdpp Require Import gmap strings list pretty.

Set Warnings "-register-all".

Local Open Scope string_scope.
Local Open Scope list_scope.
Local Open Scope Z_scope.

(* ===================================================================== *)
(** ** Exceptions *)

(** The exception classes thrown by the two translation units.
    [BsonException] is what the specification calls EncodingError and
    [logic_error] is what it calls LogicError. *)
Inductive exception : Type :=
| BsonException (what : string)          (* formats::bson::BsonException *)
| logic_error (what : string)            (* std::logic_error *)
| runtime_error (what : string)          (* std::runtime_error *)
| MissingValue.                          (* raised by ValueImpl::CheckNotMissing *)

Inductive outcome (A : Type) : Type :=
| Return (a : A)
| Throw (e : exception).
Arguments Return {A} a.
Arguments Throw {A} e.

(** A member function working on an object of type [S]: the outcome and the
    state of the object afterwards (also after a throw: nothing is rolled
    back). *)
Definition M (S A : Type) : Type := S -> outcome A * S.

Definition throw {S A} (e : exception) : M S A := fun s => (Throw e, s).

#[global] Instance M_ret {S} : MRet (M S) := fun A a s => (Return a, s).

#[global] Instance M_bind {S} : MBind (M S) := fun A B k m s =>
  match m s with
  | (Return a, s') => k a s'
  | (Throw e, s') => (Throw e, s')
  end.

(** A call with ignored result that mutates the object in place. *)
Definition modify {S} (f : S -> S) : M S unit := fun s => (Return tt, f s).

(* ===================================================================== *)
(** ** Bytes and integer types *)

Definition byte_of_ascii (c : ascii) : Z := Z.of_N (N_of_ascii c).

Definition bytes_of_string (s : string) : list Z :=
  List.map byte_of_ascii (list_ascii_of_string s).

(** [n] bytes of [v], least significant first (two's complement for [v < 0]). *)
Fixpoint le_bytes (n : nat) (v : Z) : list Z :=
  match n with
  | O => []
  | S n' => Z.land v 255 :: le_bytes n' (Z.shiftr v 8)
  end.

Definition INT64_MAX : Z := 2 ^ 63 - 1.   (* std::numeric_limits<int64_t>::max() *)
Definition UINT64_MAX : Z := 2 ^ 64 - 1.

Definition is_uint64 (v : Z) : Prop := 0 <= v <= UINT64_MAX.
Definition is_int64 (v : Z) : Prop := - 2 ^ 63 <= v <= INT64_MAX.

(** [static_cast<int64_t>(uint64_t)]: the value modulo 2^64 read as signed. *)
Definition static_cast_int64 (v : Z) : Z :=
  let w := v mod 2 ^ 64 in
  if w <? 2 ^ 63 then w else w - 2 ^ 64.

(** The conversion of an [int64_t] operand to [uint64_t] that the usual
    arithmetic conversions apply when it is compared with a [uint64_t]. *)
Definition static_cast_uint64 (v : Z) : Z := v mod 2 ^ 64.

(* ===================================================================== *)
(** ** libbson: values, documents and their wire format *)

Module Libbson.

(** [bson_value_t]: a typed payload.  A double is carried as its IEEE-754
    bit pattern; documents and arrays as their element lists. *)
Inductive bson_value_t : Type :=
| V_DOUBLE (bits : Z)
| V_UTF8 (str : string)
| V_DOCUMENT (elems : list (string * bson_value_t))
| V_ARRAY (elems : list (string * bson_value_t))
| V_BINARY (subtype : Z) (data : list Z)
| V_OID (bytes : list Z)
| V_BOOL (b : bool)
| V_DATE_TIME (msec : Z)
| V_NULL
| V_INT32 (v : Z)
| V_TIMESTAMP (timestamp increment : Z)
| V_INT64 (v : Z)
| V_DECIMAL128 (high low : Z)
| V_MAXKEY
| V_MINKEY.

(** [bson_t]: the elements appended so far, oldest first. *)
Definition bson_t : Type := list (string * bson_value_t).

Definition bson_new : bson_t := [].

(** [bson_type_t] codes. *)
Definition type_code (v : bson_value_t) : Z :=
  match v with
  | V_DOUBLE _ => 0x01
  | V_UTF8 _ => 0x02
  | V_DOCUMENT _ => 0x03
  | V_ARRAY _ => 0x04
  | V_BINARY _ _ => 0x05
  | V_OID _ => 0x07
  | V_BOOL _ => 0x08
  | V_DATE_TIME _ => 0x09
  | V_NULL => 0x0A
  | V_INT32 _ => 0x10
  | V_TIMESTAMP _ _ => 0x11
  | V_INT64 _ => 0x12
  | V_DECIMAL128 _ _ => 0x13
  | V_MAXKEY => 0x7F
  | V_MINKEY => 0xFF
  end.

(** Wire format: a document is a 4-byte little-endian total length, the
    elements, and a trailing null byte; an element is its type code, its
    null-terminated key and its payload. *)
Definition document_bytes (body : list Z) : list Z :=
  le_bytes 4 (Z.of_nat (4 + length body + 1)) ++ body ++ [0].

Fixpoint payload (v : bson_value_t) : list Z :=
  let elements :=
    fix elements (l : list (string * bson_value_t)) : list Z :=
      match l with
      | [] => []
      | (k, x) :: tl =>
          (type_code x :: bytes_of_string k ++ [0] ++ payload x) ++ elements tl
      end in
  match v with
  | V_DOUBLE bits => le_bytes 8 bits
  | V_UTF8 str =>
      le_bytes 4 (Z.of_nat (String.length str + 1)) ++ bytes_of_string str ++ [0]
  | V_DOCUMENT l => document_bytes (elements l)
  | V_ARRAY l => document_bytes (elements l)
  | V_BINARY subtype data =>
      le_bytes 4 (Z.of_nat (length data)) ++ [subtype] ++ data
  | V_OID bytes => bytes
  | V_BOOL b => [if b then 1 else 0]
  | V_DATE_TIME msec => le_bytes 8 msec
  | V_NULL => []
  | V_INT32 x => le_bytes 4 x
  | V_TIMESTAMP timestamp increment => le_bytes 4 increment ++ le_bytes 4 timestamp
  | V_INT64 x => le_bytes 8 x
  | V_DECIMAL128 high low => le_bytes 8 low ++ le_bytes 8 high
  | V_MAXKEY => []
  | V_MINKEY => []
  end.

Definition element_bytes (e : string * bson_value_t) : list Z :=
  type_code (snd e) :: bytes_of_string (fst e) ++ [0] ++ payload (snd e).

(** [bson_get_data]: the bytes of a whole document. *)
Definition bson_get_data (b : bson_t) : list Z := payload (V_DOCUMENT b).

(** The keys a [bson_iter_t] walks over, in order. *)
Definition bson_keys (b : bson_t) : list string := List.map fst b.

(** [bson_count_keys]. *)
Definition bson_count_keys (b : bson_t) : nat := length b.

(** The append functions.  The builder ignores their boolean result; they
    are modelled on their success path (key without embedded null, document
    below libbson's size limit). *)
Definition bson_append_value (key : string) (v : bson_value_t) (b : bson_t) : bson_t :=
  b ++ [(key, v)].

Definition bson_append_null key := bson_append_value key V_NULL.
Definition bson_append_bool key (v : bool) := bson_append_value key (V_BOOL v).
Definition bson_append_int32 key (v : Z) := bson_append_value key (V_INT32 v).
Definition bson_append_int64 key (v : Z) := bson_append_value key (V_INT64 v).
Definition bson_append_double key (bits : Z) := bson_append_value key (V_DOUBLE bits).
Definition bson_append_utf8 key (s : string) := bson_append_value key (V_UTF8 s).
Definition bson_append_date_time key (ms : Z) := bson_append_value key (V_DATE_TIME ms).
Definition bson_append_oid key (oid : list Z) := bson_append_value key (V_OID oid).
Definition bson_append_binary key (subtype : Z) (data : list Z) :=
  bson_append_value key (V_BINARY subtype data).
Definition bson_append_decimal128 key (high low : Z) :=
  bson_append_value key (V_DECIMAL128 high low).
Definition bson_append_minkey key := bson_append_value key V_MINKEY.
Definition bson_append_maxkey key := bson_append_value key V_MAXKEY.
Definition bson_append_timestamp key (timestamp increment : Z) :=
  bson_append_value key (V_TIMESTAMP timestamp increment).
Definition bson_append_document key (sub : bson_t) := bson_append_value key (V_DOCUMENT sub).
Definition bson_append_array key (sub : bson_t) := bson_append_value key (V_ARRAY sub).

Definition BSON_SUBTYPE_BINARY : Z := 0x00.

(** Reading a document back, the way [bson_iter_t] walks its bytes. *)

(** The number a little-endian byte sequence stands for. *)
Definition le_value (bytes : list Z) : Z :=
  fold_right (fun b acc => b + 256 * acc) 0 bytes.

(** The size of the payload of an element of type [code] whose payload
    starts [bytes]: fixed by the type, or given by the length prefix. *)
Definition payload_size (code : Z) (bytes : list Z) : option nat :=
  let prefix := Z.to_nat (le_value (firstn 4 bytes)) in
  if (code =? 0x01) || (code =? 0x09) || (code =? 0x11) || (code =? 0x12) then Some 8%nat
  else if code =? 0x02 then Some (4 + prefix)%nat
  else if (code =? 0x03) || (code =? 0x04) then Some prefix
  else if code =? 0x05 then Some (4 + 1 + prefix)%nat
  else if code =? 0x07 then Some 12%nat
  else if code =? 0x08 then Some 1%nat
  else if (code =? 0x0A) || (code =? 0x7F) || (code =? 0xFF) then Some 0%nat
  else if code =? 0x10 then Some 4%nat
  else if code =? 0x13 then Some 16%nat
  else None.

(** A null-terminated key and what follows it. *)
Fixpoint read_cstring (bytes : list Z) : option (list Z * list Z) :=
  match bytes with
  | [] => None
  | b :: tl =>
      if b =? 0 then Some ([], tl)
      else match read_cstring tl with
           | Some (s, rest) => Some (b :: s, rest)
           | None => None
           end
  end.

(** The keys of the elements up to the terminating null byte. *)
Fixpoint bson_iter_keys (fuel : nat) (bytes : list Z) : option (list (list Z)) :=
  match fuel with
  | O => None
  | S fuel' =>
      match bytes with
      | [] => None
      | code :: rest =>
          if code =? 0 then Some []
          else
            match read_cstring rest with
            | None => None
            | Some (key, rest') =>
                match payload_size code rest' with
                | None => None
                | Some n =>
                    match bson_iter_keys fuel' (skipn n rest') with
                    | Some keys => Some (key :: keys)
                    | None => None
                    end
                end
            end
      end
  end.

(** The keys of a serialised document: skip the length, walk the elements. *)
Definition read_document_keys (data : list Z) : option (list (list Z)) :=
  bson_iter_keys (length data) (skipn 4 data).

(** What libbson requires of a value for its append to succeed: lengths
    that fit their prefix, an object id of twelve bytes. *)
Definition fits (v : bson_value_t) : Prop :=
  match v with
  | V_UTF8 str => Z.of_nat (String.length str + 1) < 2 ^ 32
  | V_DOCUMENT _ | V_ARRAY _ => Z.of_nat (length (payload v)) < 2 ^ 32
  | V_BINARY _ data => Z.of_nat (length data) < 2 ^ 32
  | V_OID bytes => length bytes = 12%nat
  | _ => True
  end.

(** A key without an embedded null byte. *)
Definition key_ok (key : string) : Prop := ~ In 0 (bytes_of_string key).

(** An element whose append succeeds. *)
Definition readable (e : string * bson_value_t) : Prop := key_ok (fst e) /\ fits (snd e).

End Libbson.
Import Libbson.

(* ===================================================================== *)
(** ** utils::text::utf8 *)

Module utf8.

Definition in_range (lo hi b : Z) : bool := (lo <=? b) && (b <=? hi).

Definition is_continuation (b : Z) : bool := in_range 0x80 0xBF b.

(** Range of the second byte of a three-byte sequence with lead byte [b0]:
    no overlong forms and no surrogates. *)
Definition second_of_three (b0 b1 : Z) : bool :=
  if b0 =? 0xE0 then in_range 0xA0 0xBF b1
  else if b0 =? 0xED then in_range 0x80 0x9F b1
  else is_continuation b1.

(** Range of the second byte of a four-byte sequence with lead byte [b0]:
    no overlong forms and nothing above U+10FFFF. *)
Definition second_of_four (b0 b1 : Z) : bool :=
  if b0 =? 0xF0 then in_range 0x90 0xBF b1
  else if b0 =? 0xF4 then in_range 0x80 0x8F b1
  else is_continuation b1.

(** Modelled from the spec: [utils::text::utf8::IsValid] (utils/text.hpp is
    not among the sources).  The specification only says that strings must
    be valid UTF-8; this is the well-formedness test of the Unicode standard
    (table of well-formed UTF-8 byte sequences), read left to right. *)
Fixpoint IsValid (data : list Z) : bool :=
  match data with
  | [] => true
  | b0 :: t0 =>
      if b0 <=? 0x7F then IsValid t0
      else
        match t0 with
        | [] => false
        | b1 :: t1 =>
            if in_range 0xC2 0xDF b0 then is_continuation b1 && IsValid t1
            else
              match t1 with
              | [] => false
              | b2 :: t2 =>
                  if in_range 0xE0 0xEF b0
                  then second_of_three b0 b1 && is_continuation b2 && IsValid t2
                  else
                    match t2 with
                    | [] => false
                    | b3 :: t3 =>
                        in_range 0xF0 0xF4 b0 && second_of_four b0 b1
                        && is_continuation b2 && is_continuation b3
                        && IsValid t3
                    end
              end
        end
  end.

(** A Unicode scalar value: a code point that is not a surrogate. *)
Definition is_scalar_value (cp : Z) : Prop :=
  0 <= cp <= 0xD7FF \/ 0xE000 <= cp <= 0x10FFFF.

(** The UTF-8 encoding form of a scalar value: one to four bytes. *)
Definition encode (cp : Z) : list Z :=
  if cp <=? 0x7F then [cp]
  else if cp <=? 0x7FF then [0xC0 + cp / 64; 0x80 + cp mod 64]
  else if cp <=? 0xFFFF
       then [0xE0 + cp / 4096; 0x80 + (cp / 64) mod 64; 0x80 + cp mod 64]
       else [0xF0 + cp / 262144; 0x80 + (cp / 4096) mod 64;
             0x80 + (cp / 64) mod 64; 0x80 + cp mod 64].

(** Valid UTF-8: the encoding of a sequence of scalar values. *)
Definition well_formed (data : list Z) : Prop :=
  exists cps, Forall is_scalar_value cps /\ data = flat_map encode cps.

End utf8.

(* ===================================================================== *)
(** ** formats/bson/wrappers.hpp *)

(** Modelled from the spec: [ArrayIndexer] (wrappers.hpp is not among the
    sources).  It produces the increasing decimal keys 0, 1, 2, ...;
    [Advance] moves to the next index and [GetKey] reads the current one. *)
Module ArrayIndexer.

Record t : Type := Build { idx_ : N }.

Definition init : t := {| idx_ := 0%N |}.

Definition GetKey (indexer : t) : string := pretty (idx_ indexer).

Definition Advance (indexer : t) : t := {| idx_ := N.succ (idx_ indexer) |}.

End ArrayIndexer.

(** [BsonHolder]: the finished document handed to the caller. *)
Definition BsonHolder : Type := bson_t.

(** Modelled from the spec: [MutableBson] (wrappers.hpp is not among the
    sources), the owner of the builder's buffer.  The specification gives the
    encoder the states Empty, Building and Extracted (terminal), makes
    [Extract] transfer the buffer to the caller once, and makes accessing an
    extracted instance a LogicError. *)
Module MutableBson.

Inductive t : Type :=
| Owning (bson : bson_t)
| Extracted.

Inductive State : Type := Empty | Building | ExtractedState.

Definition state (self : t) : State :=
  match self with
  | Owning [] => Empty
  | Owning (_ :: _) => Building
  | Extracted => ExtractedState
  end.

Definition new : t := Owning bson_new.

Definition extracted_access : exception :=
  logic_error "Access to an extracted document".

(** [Get()] gives the [bson_t*] of the owned document; [use] is what the
    caller then does through that pointer. *)
Definition Get {A} (use : M bson_t A) : M t A := fun self =>
  match self with
  | Owning bson => let '(r, bson') := use bson in (r, Owning bson')
  | Extracted => (Throw extracted_access, Extracted)
  end.

Definition Extract : M t BsonHolder := fun self =>
  match self with
  | Owning bson => (Return bson, Extracted)
  | Extracted => (Throw extracted_access, Extracted)
  end.

End MutableBson.

(** Modelled from the spec: [SubdocBson] and [SubarrayBson] (wrappers.hpp is
    not among the sources), the scoped sub-container.  The constructor opens
    a document (array) element under [key] in the parent, [Get()] is the
    child that [body] writes into, and the destructor closes the element on
    every exit path, also when [body] throws; the parent then holds the
    length-prefixed child under [key]. *)
Definition SubdocBson {A} (key : string) (body : M bson_t A) : M bson_t A :=
  fun parent =>
    let '(r, child) := body bson_new in
    (r, bson_append_document key child parent).

Definition SubarrayBson {A} (key : string) (body : M bson_t A) : M bson_t A :=
  fun parent =>
    let '(r, child) := body bson_new in
    (r, bson_append_array key child parent).

(* ===================================================================== *)
(** ** formats/bson/value_impl.hpp *)

(** Modelled from the spec: [ValueImpl] (value_impl.hpp is not among the
    sources).  A node is the Missing sentinel, or carries the two members the
    builder reads: [bson_value_], the node's typed payload, and
    [parsed_value_], the variant over [std::nullptr_t] (null and scalars),
    [ParsedDocument] (key and child pairs in insertion order, duplicate keys
    allowed) and [ParsedArray] (children in order). *)
Inductive ValueImpl : Type :=
| Missing
| Node (bson_value_ : bson_value_t) (parsed_value_ : ParsedValue)
with ParsedValue : Type :=
| nullptr
| ParsedDocument (doc : list (string * ValueImpl))
| ParsedArray (array : list ValueImpl).

(** [IsMissing()]: the node is the Missing sentinel. *)
Definition IsMissing (value : ValueImpl) : bool :=
  match value with
  | Missing => true
  | Node _ _ => false
  end.

(** Modelled from the spec: the variant the visitors dispatch on; a Missing
    node holds no parsed container, so that a Missing root is refused like a
    null or scalar root. *)
Definition parsed_value_of (value : ValueImpl) : ParsedValue :=
  match value with
  | Missing => nullptr
  | Node _ parsed => parsed
  end.

(** Modelled from the spec: [ValueImpl::CheckNotMissing()] (value_impl.hpp is
    not among the sources) throws on the Missing sentinel, the node that
    stands for an absent value, and returns on every other node. *)
Definition CheckNotMissing {S} (value : ValueImpl) : M S unit :=
  if IsMissing value then throw MissingValue else mret tt.

(** Modelled from the spec: [ValueImpl::GetNative()], the node's
    [bson_value_t]; the Missing sentinel has none. *)
Definition GetNative (value : ValueImpl) : option bson_value_t :=
  match value with
  | Missing => None
  | Node native _ => Some native
  end.

(** Nesting depth of a tree: containers count one level. *)
Fixpoint depth (value : ValueImpl) : nat :=
  match value with
  | Missing => 0%nat
  | Node _ parsed =>
      match parsed with
      | nullptr => 0%nat
      | ParsedDocument doc =>
          S ((fix go (l : list (string * ValueImpl)) : nat :=
                match l with
                | [] => 0%nat
                | (_, elem) :: tl => Nat.max (depth elem) (go tl)
                end) doc)
      | ParsedArray array =>
          S ((fix go (l : list ValueImpl) : nat :=
                match l with
                | [] => 0%nat
                | elem :: tl => Nat.max (depth elem) (go tl)
                end) array)
      end
  end.

(* ===================================================================== *)
(** ** Range-based for loops *)

Section Loops.
Context {S A : Type}.

(** [for (const auto& x : l) body(x);] *)
Section RangeFor.
Variable body : A -> M S unit.

Fixpoint range_for (l : list A) : M S unit :=
  match l with
  | [] => mret tt
  | x :: tl => body x ;; range_for tl
  end.
End RangeFor.

(** [ArrayIndexer indexer; for (const auto& x : l) { body(indexer, x); indexer.Advance(); }] *)
Section IndexedFor.
Variable body : ArrayIndexer.t -> A -> M S unit.

Fixpoint indexed_for (indexer : ArrayIndexer.t) (l : list A) : M S unit :=
  match l with
  | [] => mret tt
  | x :: tl =>
      body indexer x ;; indexed_for (ArrayIndexer.Advance indexer) tl
  end.
End IndexedFor.
End Loops.

(* ===================================================================== *)
(** ** formats/bson/bson_builder.cpp *)

Module BsonBuilder.

Record t : Type := Build { bson_ : MutableBson.t }.

(** [bson_->Get()] followed by what is done through the pointer. *)
Definition bson_Get {A} (use : M bson_t A) : M t A := fun self =>
  let '(r, bson') := MutableBson.Get use (bson_ self) in
  (r, {| bson_ := bson' |}).

(** [BsonBuilder::BsonBuilder()] *)
Definition default : t := {| bson_ := MutableBson.new |}.

(** [BsonBuilder::AppendInto(bson_t* dest, key, const ValueImpl& value)].
    The state is the document [dest] points to.  The first case is the early
    return on [value.IsMissing()], the others are the visitor's overloads
    over [value.parsed_value_]. *)
Fixpoint AppendInto (key : string) (value : ValueImpl) {struct value} : M bson_t unit :=
  match value with
  | Missing => mret tt
  | Node bson_value parsed =>
      match parsed with
      | nullptr => modify (bson_append_value key bson_value)
      | ParsedDocument doc =>
          SubdocBson key
            (range_for (fun entry => let '(key, elem) := entry in AppendInto key elem) doc)
      | ParsedArray array =>
          SubarrayBson key
            (indexed_for
               (fun indexer elem => AppendInto (ArrayIndexer.GetKey indexer) elem)
               ArrayIndexer.init array)
      end
  end.

(** The visitor of [BsonBuilder::BsonBuilder(const ValueImpl&)], run on the
    freshly default-constructed member [bson_].  [UASSERT] is compiled out in
    release builds, which leaves the throw. *)
Definition construct_visit (parsed : ParsedValue) : M t unit :=
  match parsed with
  | nullptr => throw (logic_error "Attempt to build a document from primitive type")
  | ParsedDocument doc =>
      range_for (fun entry => let '(key, elem) := entry in bson_Get (AppendInto key elem)) doc
  | ParsedArray array =>
      indexed_for
        (fun indexer elem => bson_Get (AppendInto (ArrayIndexer.GetKey indexer) elem))
        ArrayIndexer.init array
  end.

(** [BsonBuilder::BsonBuilder(const ValueImpl& value)]: a constructor that
    throws leaves no object. *)
Definition from_value (value : ValueImpl) : outcome t :=
  match construct_visit (parsed_value_of value) default with
  | (Return _, self) => Return self
  | (Throw e, _) => Throw e
  end.

(** The [Append] overloads. *)
Definition Append_null (key : string) : M t unit :=
  bson_Get (modify (bson_append_null key)).

Definition Append_bool (key : string) (value : bool) : M t unit :=
  bson_Get (modify (bson_append_bool key value)).

Definition Append_int32 (key : string) (value : Z) : M t unit :=
  bson_Get (modify (bson_append_int32 key value)).

Definition Append_int64 (key : string) (value : Z) : M t unit :=
  bson_Get (modify (bson_append_int64 key value)).

Definition Append_uint64 (key : string) (value : Z) : M t unit :=
  if value >? static_cast_uint64 INT64_MAX
  then throw (BsonException
                ("The value " +:+ pretty value +:+ " of '" +:+ key +:+ "' is too high for BSON"))
  else Append_int64 key (static_cast_int64 value).

Definition Append_double (key : string) (bits : Z) : M t unit :=
  bson_Get (modify (bson_append_double key bits)).

Definition Append_string (key : string) (value : string) : M t unit :=
  if negb (utf8.IsValid (bytes_of_string value))
  then throw (BsonException "BSON strings must be valid UTF-8")
  else bson_Get (modify (bson_append_utf8 key value)).

(** The time point is given by its milliseconds since the epoch. *)
Definition Append_time_point (key : string) (ms_since_epoch : Z) : M t unit :=
  bson_Get (modify (bson_append_date_time key ms_since_epoch)).

Definition Append_Oid (key : string) (native : list Z) : M t unit :=
  bson_Get (modify (bson_append_oid key native)).

Definition Append_Binary (key : string) (data : list Z) : M t unit :=
  bson_Get (modify (bson_append_binary key BSON_SUBTYPE_BINARY data)).

Definition Append_Decimal128 (key : string) (high low : Z) : M t unit :=
  bson_Get (modify (bson_append_decimal128 key high low)).

Definition Append_MinKey (key : string) : M t unit :=
  bson_Get (modify (bson_append_minkey key)).

Definition Append_MaxKey (key : string) : M t unit :=
  bson_Get (modify (bson_append_maxkey key)).

Definition Append_Timestamp (key : string) (timestamp increment : Z) : M t unit :=
  bson_Get (modify (bson_append_timestamp key timestamp increment)).

(** [Append(key, const Value& value)], [value.impl_] being the node. *)
Definition Append_Value (key : string) (impl_ : ValueImpl) : M t unit :=
  CheckNotMissing impl_ ;;
  bson_Get (modify (fun bson =>
    match GetNative impl_ with
    | Some native => bson_append_value key native bson
    | None => bson
    end)).

Definition Append_bson (key : string) (sub_bson : bson_t) : M t unit :=
  bson_Get (modify (bson_append_document key sub_bson)).

(** [BsonBuilder::Get() const] *)
Definition Get : M t bson_t := bson_Get (fun bson => (Return bson, bson)).

(** [BsonBuilder::Extract()] *)
Definition Extract : M t BsonHolder := fun self =>
  let '(r, bson') := MutableBson.Extract (bson_ self) in
  (r, {| bson_ := bson' |}).

(** A [std::string_view] made from a [const char*] pointer: the characters
    before the first null of the array the pointer refers to. *)
Fixpoint until_null (chars : string) : string :=
  match chars with
  | EmptyString => EmptyString
  | String c tl =>
      if Ascii.eqb c Ascii.zero then EmptyString else String c (until_null tl)
  end.

(** [Append(key, const char* value)] *)
Definition Append_cstr (key : string) (value : string) : M t unit :=
  Append_string key (until_null value).

(** [Append(key, long long value)]: [int64_t{value}]. *)
Definition Append_long_long (key : string) (value : Z) : M t unit :=
  Append_int64 key value.

(** [Append(key, unsigned long long value)]: [uint64_t{value}]. *)
Definition Append_unsigned_long_long (key : string) (value : Z) : M t unit :=
  Append_uint64 key value.

(** [duration_cast<milliseconds>(value.time_since_epoch()).count()] for a
    clock that counts [ticks_per_ms] ticks in a millisecond (a million for a
    nanosecond clock): integer division, rounding toward zero. *)
Definition duration_cast_milliseconds (ticks_per_ms ticks : Z) : Z :=
  Z.quot ticks ticks_per_ms.

(** [Append(key, system_clock::time_point value)], the time point given by
    its ticks since the epoch. *)
Definition Append_system_clock (ticks_per_ms : Z) (key : string) (ticks : Z) : M t unit :=
  Append_time_point key (duration_cast_milliseconds ticks_per_ms ticks).

(** The overload set of [Append]: the argument with the type that selects
    the overload. *)
Inductive Appendable : Type :=
| of_nullptr
| of_bool (value : bool)
| of_int32 (value : Z)
| of_int64 (value : Z)
| of_uint64 (value : Z)
| of_long_long (value : Z)
| of_unsigned_long_long (value : Z)
| of_double (bits : Z)
| of_cstr (value : string)
| of_string_view (value : string)
| of_time_point (ms_since_epoch : Z)
| of_Oid (native : list Z)
| of_Binary (data : list Z)
| of_Decimal128 (high low : Z)
| of_MinKey
| of_MaxKey
| of_Timestamp (timestamp increment : Z)
| of_Value (impl_ : ValueImpl)
| of_bson (sub_bson : bson_t).

(** [Append(key, value)], by overload resolution. *)
Definition Append (key : string) (value : Appendable) : M t unit :=
  match value with
  | of_nullptr => Append_null key
  | of_bool v => Append_bool key v
  | of_int32 v => Append_int32 key v
  | of_int64 v => Append_int64 key v
  | of_uint64 v => Append_uint64 key v
  | of_long_long v => Append_long_long key v
  | of_unsigned_long_long v => Append_unsigned_long_long key v
  | of_double bits => Append_double key bits
  | of_cstr v => Append_cstr key v
  | of_string_view v => Append_string key v
  | of_time_point ms => Append_time_point key ms
  | of_Oid native => Append_Oid key native
  | of_Binary data => Append_Binary key data
  | of_Decimal128 high low => Append_Decimal128 key high low
  | of_MinKey => Append_MinKey key
  | of_MaxKey => Append_MaxKey key
  | of_Timestamp timestamp increment => Append_Timestamp key timestamp increment
  | of_Value impl_ => Append_Value key impl_
  | of_bson sub_bson => Append_bson key sub_bson
  end.

(** [builder.Append(k1, v1).Append(k2, v2)...]: every call returns [*this],
    the next call follows unless one throws. *)
Definition AppendAll (calls : list (string * Appendable)) : M t unit :=
  range_for (fun call => Append (fst call) (snd call)) calls.

End BsonBuilder.

(* ===================================================================== *)
(** ** core/include/taxi_config/value.hpp *)

Module taxi_config.

Section ValueDict.
Context {ValueType : Type}.

(** [extern const std::string kValueDictDefaultName;] is only declared in
    the header: the reserved key is a parameter. *)
Variable kValueDictDefaultName : string.

(** [DictType = std::unordered_map<std::string, ValueType>] *)
Record ValueDict : Type := Build {
  name_ : string;
  dict_ : gmap string ValueType
}.

(** An iterator into [dict_]: the entry it points to, [None] for [end()]. *)
Definition iterator : Type := option (string * ValueType).

Definition find (dict : gmap string ValueType) (key : string) : iterator :=
  match dict !! key with
  | Some value => Some (key, value)
  | None => None
  end.

Definition is_end (it : iterator) : bool :=
  match it with
  | None => true
  | Some _ => false
  end.

(** [(name_.empty() ? "" : " in " + name_)] *)
Definition in_name (self : ValueDict) : string :=
  if String.eqb (name_ self) "" then "" else " in " +:+ name_ self.

Definition no_value_for (self : ValueDict) (key : string) : exception :=
  runtime_error ("no value for '" +:+ key +:+ "'" +:+ in_name self).

(** [it->second]; the callers below only dereference after the [end()] test. *)
Definition second (self : ValueDict) (key : string) (it : iterator) : outcome ValueType :=
  match it with
  | Some entry => Return (snd entry)
  | None => Throw (no_value_for self key)
  end.

Definition HasValue (self : ValueDict) (key : string) : bool :=
  negb (is_end (find (dict_ self) key)).

Definition HasDefaultValue (self : ValueDict) : bool :=
  HasValue self kValueDictDefaultName.

Definition GetDefaultValue (self : ValueDict) : outcome ValueType :=
  let it := find (dict_ self) kValueDictDefaultName in
  if is_end it then Throw (no_value_for self kValueDictDefaultName)
  else second self kValueDictDefaultName it.

(** [operator[](const std::string& key)] *)
Definition operator_index (self : ValueDict) (key : string) : outcome ValueType :=
  let it := find (dict_ self) key in
  if is_end it then
    let it := find (dict_ self) kValueDictDefaultName in
    if is_end it then Throw (no_value_for self key)
    else second self key it
  else second self key it.

(** [operator[](const boost::optional<std::string>& key)] *)
Definition operator_index_optional (self : ValueDict) (key : option string)
  : outcome ValueType :=
  match key with
  | Some key => operator_index self key
  | None => GetDefaultValue self
  end.

Definition Get (self : ValueDict) (key : string) : outcome ValueType :=
  operator_index self key.

(** [GetOptional]: [boost::none] where [operator[]] throws. *)
Definition GetOptional (self : ValueDict) (key : string) : option ValueType :=
  let it := find (dict_ self) key in
  if is_end it then
    let it := find (dict_ self) kValueDictDefaultName in
    if is_end it then None
    else option_map snd it
  else option_map snd it.

(** [ValueDict() = default]: no name, no entry. *)
Definition empty : ValueDict := {| name_ := ""; dict_ := ∅ |}.

End ValueDict.

Arguments ValueDict : clear implicits.

End taxi_config.

(* ===================================================================== *)
(** ** What the traversal is expected to produce *)

Section FlatMapFrom.
Context {A B : Type} (f : N -> A -> list B).

(** The concatenation of [f i x], [f (i+1) y], ... over a list [x; y; ...]. *)
Fixpoint flat_map_from (i : N) (l : list A) : list B :=
  match l with
  | [] => []
  | x :: tl => f i x ++ flat_map_from (N.succ i) tl
  end.
End FlatMapFrom.

(** The decimal key of position [i]. *)
Definition index_key (i : nat) : string := pretty (N.of_nat i).

(** The elements that the specification lets a (key, node) pair contribute
    to its container: nothing for Missing, the node's own payload for a null
    or scalar, one sub-document holding the children's contributions in
    insertion order for a Document, and one sub-array whose children are
    keyed by position for an Array. *)
Fixpoint encoded (key : string) (value : ValueImpl) {struct value} : bson_t :=
  match value with
  | Missing => []
  | Node bson_value parsed =>
      match parsed with
      | nullptr => [(key, bson_value)]
      | ParsedDocument doc =>
          [(key, V_DOCUMENT (flat_map (fun entry => encoded (fst entry) (snd entry)) doc))]
      | ParsedArray array =>
          [(key, V_ARRAY
                   (flat_map_from (fun i elem => encoded (pretty i) elem) 0%N array))]
      end
  end.

Definition present (value : ValueImpl) : bool := negb (IsMissing value).

(** The entries of a document that are not Missing, in insertion order. *)
Definition present_entries (doc : list (string * ValueImpl)) : list (string * ValueImpl) :=
  List.filter (fun entry => present (snd entry)) doc.

(** The positions of an array that do not hold Missing, in increasing order. *)
Definition present_indices (array : list ValueImpl) : list nat :=
  List.map fst
    (List.filter (fun p => present (snd p)) (combine (seq 0 (length array)) array)).

(** A chain of [n] nested documents around a null. *)
Fixpoint nest (n : nat) : ValueImpl :=
  match n with
  | O => Node V_NULL nullptr
  | S n' => Node V_NULL (ParsedDocument [("a", nest n')])
  end.

(** How deep the documents and arrays of an encoded value are nested. *)
Fixpoint levels (v : bson_value_t) : nat :=
  let deepest :=
    fix deepest (l : list (string * bson_value_t)) : nat :=
      match l with
      | [] => 0%nat
      | (_, x) :: tl => Nat.max (levels x) (deepest tl)
      end in
  match v with
  | V_DOCUMENT l => S (deepest l)
  | V_ARRAY l => S (deepest l)
  | _ => 0%nat
  end.

(** The deepest nesting among the elements of a document. *)
Definition deepest_level (bson : bson_t) : nat :=
  list_max (List.map (fun e => levels (snd e)) bson).

(** The builder a successful construction leaves: it owns [bson]. *)
Definition owning (bson : bson_t) : BsonBuilder.t :=
  {| BsonBuilder.bson_ := MutableBson.Owning bson |}.

Definition extracted : BsonBuilder.t :=
  {| BsonBuilder.bson_ := MutableBson.Extracted |}.

(** ** Statements of the specification that the code is compared with *)

(** A Missing element of an array takes no index: the keys of the encoded
    array would then be 0, 1, ... up to the number of present elements. *)
Definition missing_takes_no_index (array : list ValueImpl) : Prop :=
  forall bv,
    exists bson,
      BsonBuilder.from_value (Node bv (ParsedArray array)) = Return (owning bson)
      /\ bson_keys bson = List.map index_key (seq 0 (length (List.filter present array))).

(** The ceiling the specification recommends for the nesting depth. *)
Definition depth_ceiling : nat := 200.

(** A tree nested deeper than the ceiling makes the traversal raise
    [BsonException]. *)
Definition deep_tree_is_rejected (value : ValueImpl) : Prop :=
  (depth_ceiling < depth value)%nat ->
  forall key dest,
    exists what dest',
      BsonBuilder.AppendInto key value dest = (Throw (BsonException what), dest').

(** An [Append] made after [Extract()] fails with [logic_error]. *)
Definition append_after_extract_is_logic_error (append : M BsonBuilder.t unit) : Prop :=
  forall bson,
    exists what,
      fst ((BsonBuilder.Extract ;; append) (owning bson)) = Throw (logic_error what).

(** ** Which arguments an [Append] refuses *)

(** The arguments on which an overload throws before it reaches the buffer. *)
Definition refused (value : BsonBuilder.Appendable) : bool :=
  match value with
  | BsonBuilder.of_uint64 v | BsonBuilder.of_unsigned_long_long v => INT64_MAX <? v
  | BsonBuilder.of_string_view v => negb (utf8.IsValid (bytes_of_string v))
  | BsonBuilder.of_cstr v =>
      negb (utf8.IsValid (bytes_of_string (BsonBuilder.until_null v)))
  | BsonBuilder.of_Value impl_ => IsMissing impl_
  | _ => false
  end.

(** The calls of a chain up to the first one that is refused. *)
Fixpoint accepted_prefix (calls : list (string * BsonBuilder.Appendable))
  : list (string * BsonBuilder.Appendable) :=
  match calls with
  | [] => []
  | call :: tl => if refused (snd call) then [] else call :: accepted_prefix tl
  end.

(* ===================================================================== *)
(** * Properties *)

(** ** Induction over trees *)

Section ValueImplInduction.
Variable P : ValueImpl -> Prop.
Hypothesis P_missing : P Missing.
Hypothesis P_primitive : forall bv, P (Node bv nullptr).
Hypothesis P_document :
  forall bv doc, Forall (fun entry => P (snd entry)) doc -> P (Node bv (ParsedDocument doc)).
Hypothesis P_array :
  forall bv array, Forall P array -> P (Node bv (ParsedArray array)).

Fixpoint ValueImpl_tree_ind (value : ValueImpl) : P value.
Proof.
  destruct value as [|bv [|doc|array]].
  - exact P_missing.
  - apply P_primitive.
  - apply P_document.
    induction doc as [|[k elem] tl IH]; constructor; [apply ValueImpl_tree_ind | exact IH].
  - apply P_array.
    induction array as [|elem tl IH]; constructor; [apply ValueImpl_tree_ind | exact IH].
Qed.
End ValueImplInduction.

(** ** The loops append what their bodies append *)

Lemma bind_return {S A B} (m : M S A) (k : A -> M S B) s a s' :
  m s = (Return a, s') -> (m ≫= k) s = k a s'.
Proof. intros H. unfold mbind, M_bind. now rewrite H. Qed.

Lemma bind_throw {S A B} (m : M S A) (k : A -> M S B) s e s' :
  m s = (Throw e, s') -> (m ≫= k) s = (Throw e, s').
Proof. intros H. unfold mbind, M_bind. now rewrite H. Qed.

(** The state [S] of the loop holds a document, seen through [hold]: the
    document itself inside [AppendInto], the builder owning it in the
    constructor. *)
Lemma range_for_appends {S A B} (hold : list B -> S)
    (body : A -> M S unit) (f : A -> list B) l :
  Forall (fun x => forall dest, body x (hold dest) = (Return tt, hold (dest ++ f x))) l ->
  forall dest, range_for body l (hold dest) = (Return tt, hold (dest ++ flat_map f l)).
Proof.
  induction 1 as [|x tl Hx _ IH]; intros dest; simpl.
  - now rewrite app_nil_r.
  - rewrite (bind_return _ _ _ _ _ (Hx dest)), IH. now rewrite <- app_assoc.
Qed.

Lemma indexed_for_appends {S A B} (hold : list B -> S)
    (body : ArrayIndexer.t -> A -> M S unit) (f : N -> A -> list B) l :
  Forall (fun x => forall i dest,
            body (ArrayIndexer.Build i) x (hold dest)
            = (Return tt, hold (dest ++ f i x))) l ->
  forall i dest,
    indexed_for body (ArrayIndexer.Build i) l (hold dest)
    = (Return tt, hold (dest ++ flat_map_from f i l)).
Proof.
  induction 1 as [|x tl Hx _ IH]; intros i dest; simpl.
  - now rewrite app_nil_r.
  - rewrite (bind_return _ _ _ _ _ (Hx i dest)).
    unfold ArrayIndexer.Advance; simpl. rewrite IH. now rewrite <- app_assoc.
Qed.

(** [AppendInto] never throws and appends exactly [encoded key value]. *)
Lemma AppendInto_encoded value :
  forall key dest,
    BsonBuilder.AppendInto key value dest = (Return tt, dest ++ encoded key value).
Proof.
  induction value as [|bv|bv doc IH|bv array IH] using ValueImpl_tree_ind;
    intros key dest; simpl.
  - now rewrite app_nil_r.
  - reflexivity.
  - unfold SubdocBson.
    assert (E := range_for_appends id
                   (fun entry => let '(k, elem) := entry in BsonBuilder.AppendInto k elem)
                   (fun entry => encoded (fst entry) (snd entry)) doc).
    unfold id in E. rewrite E; [reflexivity|].
    eapply Forall_impl; [exact IH|]. intros [k elem] H d. apply H.
  - unfold SubarrayBson. change ArrayIndexer.init with (ArrayIndexer.Build 0%N).
    assert (E := indexed_for_appends id
                   (fun indexer elem =>
                      BsonBuilder.AppendInto (ArrayIndexer.GetKey indexer) elem)
                   (fun i elem => encoded (pretty i) elem) array).
    unfold id in E. rewrite E; [reflexivity|].
    eapply Forall_impl; [exact IH|]. intros elem H i d. apply H.
Qed.

(** Through [bson_->Get()] on a builder that owns its document. *)
Lemma bson_Get_AppendInto key value bson :
  BsonBuilder.bson_Get (BsonBuilder.AppendInto key value) (owning bson)
  = (Return tt, owning (bson ++ encoded key value)).
Proof.
  unfold BsonBuilder.bson_Get, owning; simpl. now rewrite AppendInto_encoded.
Qed.

Lemma from_value_document bv doc :
  BsonBuilder.from_value (Node bv (ParsedDocument doc))
  = Return (owning (flat_map (fun entry => encoded (fst entry) (snd entry)) doc)).
Proof.
  unfold BsonBuilder.from_value; simpl.
  change BsonBuilder.default with (owning []).
  rewrite (range_for_appends owning _ (fun entry => encoded (fst entry) (snd entry))).
  - reflexivity.
  - apply Forall_forall. intros [k elem] _ dest. apply bson_Get_AppendInto.
Qed.

Lemma from_value_array bv array :
  BsonBuilder.from_value (Node bv (ParsedArray array))
  = Return (owning (flat_map_from (fun i elem => encoded (pretty i) elem) 0%N array)).
Proof.
  unfold BsonBuilder.from_value; simpl.
  change BsonBuilder.default with (owning []).
  change ArrayIndexer.init with (ArrayIndexer.Build 0%N).
  rewrite (indexed_for_appends owning _ (fun i elem => encoded (pretty i) elem)).
  - reflexivity.
  - apply Forall_forall. intros elem _ i dest. apply bson_Get_AppendInto.
Qed.

(** ** Keys *)

Lemma bson_keys_app (a b : bson_t) : bson_keys (a ++ b) = bson_keys a ++ bson_keys b.
Proof. apply List.map_app. Qed.

Lemma encoded_keys key value :
  bson_keys (encoded key value) = if present value then [key] else [].
Proof. destruct value as [|bv [|doc|array]]; reflexivity. Qed.

Lemma document_keys doc :
  bson_keys (flat_map (fun entry => encoded (fst entry) (snd entry)) doc)
  = List.map fst (present_entries doc).
Proof.
  induction doc as [|[k elem] tl IH]; [reflexivity|].
  simpl flat_map. rewrite bson_keys_app, encoded_keys, IH.
  unfold present_entries; simpl. now destruct (present elem).
Qed.

Lemma array_keys_from i array :
  bson_keys (flat_map_from (fun i elem => encoded (pretty i) elem) (N.of_nat i) array)
  = List.map index_key
      (List.map fst
         (List.filter (fun p => present (snd p)) (combine (seq i (length array)) array))).
Proof.
  revert i. induction array as [|elem tl IH]; intros i; [reflexivity|].
  simpl flat_map_from. rewrite bson_keys_app, encoded_keys.
  rewrite <- Nat2N.inj_succ, IH. simpl.
  now destruct (present elem).
Qed.

Lemma array_keys array :
  bson_keys (flat_map_from (fun i elem => encoded (pretty i) elem) 0%N array)
  = List.map index_key (present_indices array).
Proof. apply (array_keys_from 0). Qed.

Lemma present_indices_all array :
  forallb present array = true -> present_indices array = seq 0 (length array).
Proof.
  unfold present_indices. generalize 0%nat.
  induction array as [|elem tl IH]; intros i H; [reflexivity|].
  simpl in *. apply andb_true_iff in H as [-> H]. simpl. now rewrite IH.
Qed.

(** ** Wire format of a document *)

Lemma payload_document elems :
  payload (V_DOCUMENT elems) = document_bytes (flat_map element_bytes elems).
Proof.
  cbn [payload]. f_equal.
  induction elems as [|[k x] tl IH]; [reflexivity|].
  rewrite IH. reflexivity.
Qed.

Lemma bson_get_data_elements bson :
  bson_get_data bson = document_bytes (flat_map element_bytes bson).
Proof. apply payload_document. Qed.

(** *** The keys can be read back from the bytes *)

Lemma length_le_bytes n v : length (le_bytes n v) = n.
Proof. revert v. induction n as [|n IH]; intros v; simpl; [reflexivity | now rewrite IH]. Qed.

Lemma le_value_le_bytes n v :
  0 <= v < 2 ^ (8 * Z.of_nat n) -> le_value (le_bytes n v) = v.
Proof.
  revert v. induction n as [|n IH]; intros v Hv.
  - simpl in *. lia.
  - cbn [le_bytes le_value fold_right]. fold (le_value (le_bytes n (Z.shiftr v 8))).
    change 255 with (Z.ones 8). rewrite Z.land_ones, Z.shiftr_div_pow2 by lia.
    rewrite IH.
    + change (2 ^ 8) with 256. pose proof (Z.div_mod v 256). lia.
    + replace (8 * Z.of_nat (S n)) with (8 + 8 * Z.of_nat n) in Hv by lia.
      rewrite Z.pow_add_r in Hv by lia. change (2 ^ 8) with 256 in *.
      split; [apply Z.div_pos; lia | apply Z.div_lt_upper_bound; lia].
Qed.

Lemma prefix_value x rest :
  0 <= x < 2 ^ 32 -> le_value (firstn 4 (le_bytes 4 x ++ rest)) = x.
Proof.
  intros Hx. rewrite firstn_app, length_le_bytes. change (4 - 4)%nat with 0%nat.
  rewrite firstn_all2 by now rewrite length_le_bytes.
  cbn [firstn]. rewrite app_nil_r. now apply le_value_le_bytes.
Qed.

Lemma length_bytes_of_string s : length (bytes_of_string s) = String.length s.
Proof.
  unfold bytes_of_string. rewrite length_map.
  induction s as [|c s IH]; simpl; [reflexivity | now rewrite IH].
Qed.

Lemma read_cstring_key key rest :
  key_ok key ->
  read_cstring (bytes_of_string key ++ 0 :: rest) = Some (bytes_of_string key, rest).
Proof.
  unfold key_ok. induction (bytes_of_string key) as [|b tl IH]; intros Hk; [reflexivity|].
  cbn [app read_cstring].
  destruct (Z.eqb_spec b 0) as [->|_]; [exfalso; apply Hk; now left|].
  rewrite IH; [reflexivity|]. intros H. apply Hk. now right.
Qed.

Lemma payload_array elems :
  payload (V_ARRAY elems) = document_bytes (flat_map element_bytes elems).
Proof. apply payload_document. Qed.

Lemma payload_size_fits v rest :
  fits v -> payload_size (type_code v) (payload v ++ rest) = Some (length (payload v)).
Proof.
  destruct v; intros Hfit; unfold payload_size; cbn [type_code Z.eqb Pos.eqb orb];
    try (cbn [payload]; rewrite ?length_app, ?length_le_bytes; reflexivity).
  - (* string *)
    cbn [payload fits] in *. rewrite <- app_assoc, prefix_value by lia.
    rewrite !length_app, length_le_bytes, length_bytes_of_string. simpl length.
    f_equal. lia.
  - (* document *)
    cbn [fits] in Hfit. rewrite payload_document in *. unfold document_bytes in *.
    rewrite !length_app, length_le_bytes in Hfit. cbn [length] in Hfit.
    rewrite <- app_assoc, prefix_value by lia.
    f_equal. rewrite !length_app, length_le_bytes. cbn [length]. lia.
  - (* array *)
    cbn [fits] in Hfit. rewrite payload_array in *. unfold document_bytes in *.
    rewrite !length_app, length_le_bytes in Hfit. cbn [length] in Hfit.
    rewrite <- app_assoc, prefix_value by lia.
    f_equal. rewrite !length_app, length_le_bytes. cbn [length]. lia.
  - (* binary *)
    cbn [payload fits] in *. rewrite <- app_assoc, prefix_value by lia.
    rewrite !length_app, length_le_bytes. simpl length. f_equal. lia.
  - (* oid *)
    cbn [payload fits] in *. now rewrite Hfit.
Qed.

Lemma bson_iter_keys_elements elems :
  Forall readable elems ->
  forall fuel rest,
    (length elems < fuel)%nat ->
    bson_iter_keys fuel (flat_map element_bytes elems ++ 0 :: rest)
    = Some (List.map bytes_of_string (bson_keys elems)).
Proof.
  induction 1 as [|[key v] tl [Hkey Hfit] _ IH]; intros fuel rest Hfuel.
  - destruct fuel; [simpl in Hfuel; lia | reflexivity].
  - destruct fuel as [|fuel]; [simpl in Hfuel; lia|].
    simpl in Hfuel, Hkey, Hfit.
    cbn [flat_map]. unfold element_bytes at 1. cbn [fst snd].
    rewrite <- !app_comm_cons. cbn [bson_iter_keys].
    replace (type_code v =? 0) with false by (destruct v; reflexivity).
    rewrite <- !app_assoc. cbn [app].
    rewrite read_cstring_key by assumption.
    rewrite payload_size_fits by assumption.
    rewrite skipn_app, skipn_all, Nat.sub_diag, skipn_O. cbn [app].
    rewrite IH by lia. reflexivity.
Qed.

Lemma length_element_bytes e : (1 <= length (element_bytes e))%nat.
Proof. unfold element_bytes. simpl. lia. Qed.

Lemma length_elements elems : (length elems <= length (flat_map element_bytes elems))%nat.
Proof.
  induction elems as [|e tl IH]; [reflexivity|].
  cbn [flat_map]. rewrite length_app. pose proof (length_element_bytes e). simpl. lia.
Qed.

Theorem read_document_keys_encoded bson :
  Forall readable bson ->
  read_document_keys (bson_get_data bson) = Some (List.map bytes_of_string (bson_keys bson)).
Proof.
  intros H. unfold read_document_keys. rewrite bson_get_data_elements.
  unfold document_bytes.
  rewrite skipn_app, length_le_bytes, Nat.sub_diag.
  rewrite skipn_all2 by now rewrite length_le_bytes.
  cbn [skipn app]. apply bson_iter_keys_elements; [assumption|].
  rewrite !length_app, length_le_bytes. pose proof (length_elements bson). simpl. lia.
Qed.

(* ===================================================================== *)
(** ** Arrays *)

Lemma keys_on_the_wire bson keys :
  bson_keys bson = keys ->
  Forall readable bson ->
  read_document_keys (bson_get_data bson) = Some (List.map bytes_of_string keys).
Proof. intros <-. apply read_document_keys_encoded. Qed.

(** C1: for every array node, at the root and nested alike, the encoder keys
    the elements by their position in traversal order, in decimal, through
    [ArrayIndexer]; the keys do not depend on the nodes, and they are the keys
    read back from the encoded bytes.  In particular an array of three
    elements is encoded under the keys 0, 1 and 2, in that order. *)
Theorem array_keys_are_positions :
  forall bv array,
    let keys := List.map index_key (present_indices array) in
    (forall key dest,
        exists child,
          BsonBuilder.AppendInto key (Node bv (ParsedArray array)) dest
          = (Return tt, dest ++ [(key, V_ARRAY child)])
          /\ bson_keys child = keys
          /\ (Forall readable child ->
              read_document_keys (bson_get_data child)
              = Some (List.map bytes_of_string keys)))
    /\ (exists bson,
           BsonBuilder.from_value (Node bv (ParsedArray array)) = Return (owning bson)
           /\ bson_keys bson = keys
           /\ (Forall readable bson ->
               read_document_keys (bson_get_data bson)
               = Some (List.map bytes_of_string keys)))
    /\ (forall b0 p0 b1 p1 b2 p2,
           exists bson,
             BsonBuilder.from_value
               (Node bv (ParsedArray [Node b0 p0; Node b1 p1; Node b2 p2]))
             = Return (owning bson)
             /\ bson_keys bson = ["0"; "1"; "2"]
             /\ (Forall readable bson ->
                 read_document_keys (bson_get_data bson)
                 = Some (List.map bytes_of_string ["0"; "1"; "2"]))).
Proof.
  intros bv array keys. split; [|split].
  - intros key dest. eexists. split; [|split].
    + rewrite AppendInto_encoded. reflexivity.
    + apply array_keys.
    + apply keys_on_the_wire, array_keys.
  - eexists. split; [apply from_value_array|].
    split; [apply array_keys | apply keys_on_the_wire, array_keys].
  - intros. eexists. split; [apply from_value_array|].
    split; [|apply keys_on_the_wire]; rewrite array_keys; reflexivity.
Qed.

(** Three elements of different kinds, down to the bytes: the keys are the
    characters 0, 1 and 2 (0x30, 0x31, 0x32) after the type codes. *)
Example array_of_three_bytes :
  exists bson,
    BsonBuilder.from_value
      (Node V_NULL (ParsedArray
         [Node (V_INT32 7) nullptr;
          Node (V_BOOL true) nullptr;
          Node V_NULL (ParsedDocument [("9", Node V_NULL nullptr)])]))
    = Return (owning bson)
    /\ bson_get_data bson
       = [27; 0; 0; 0;
          0x10; 0x30; 0; 7; 0; 0; 0;
          0x08; 0x31; 0; 1;
          0x03; 0x32; 0; 8; 0; 0; 0; 0x0A; 0x39; 0; 0;
          0]
    /\ read_document_keys (bson_get_data bson) = Some [[0x30]; [0x31]; [0x32]].
Proof. eexists. split; [reflexivity|]. split; reflexivity. Qed.

(** When no element is Missing the keys are exactly 0 .. n-1. *)
Lemma array_keys_all_present bv array :
  forallb present array = true ->
  exists bson,
    BsonBuilder.from_value (Node bv (ParsedArray array)) = Return (owning bson)
    /\ bson_keys bson = List.map index_key (seq 0 (length array)).
Proof.
  intros H. eexists. split; [apply from_value_array|].
  now rewrite array_keys, present_indices_all.
Qed.

(* ===================================================================== *)
(** ** Missing children *)

Lemma flat_map_from_app {A B} (f : N -> A -> list B) l1 l2 i :
  flat_map_from f i (l1 ++ l2)
  = flat_map_from f i l1 ++ flat_map_from f (i + N.of_nat (length l1)) l2.
Proof.
  revert i. induction l1 as [|x tl IH]; intros i; simpl.
  - now rewrite N.add_0_r.
  - rewrite IH, <- app_assoc. do 3 f_equal. lia.
Qed.

(** Without a Missing element the positions and the counted keys agree. *)
Lemma all_present_takes_no_index array :
  forallb present array = true -> missing_takes_no_index array.
Proof.
  intros H bv. destruct (array_keys_all_present bv array H) as (bson & Hb & Hk).
  exists bson. split; [exact Hb|]. rewrite Hk. do 2 f_equal.
  clear Hb Hk. induction array as [|elem tl IH]; [reflexivity|].
  simpl in *. apply andb_true_iff in H as [-> H]. simpl. now rewrite <- IH.
Qed.

(** C4 does not hold as stated: in the array [1, Missing, 2] the Missing
    element takes index 1, the encoded keys are 0 and 2. *)
Lemma missing_takes_an_index :
  ~ missing_takes_no_index [Node (V_INT32 1) nullptr; Missing; Node (V_INT32 2) nullptr].
Proof.
  intros H. destruct (H V_NULL) as (bson & Hb & Hk).
  rewrite from_value_array in Hb. injection Hb as <-.
  vm_compute in Hk. discriminate Hk.
Qed.

(** C4, as the code has it: a Missing child leaves the destination as it
    was, so no byte is written; the encoded document holds one element per
    entry that is not Missing, so one present and one Missing entry give one
    element; in an array the indexer advances past a Missing element all the
    same, and the elements behind it keep their positions as keys. *)
Theorem missing_child_is_skipped :
  (forall key dest,
      BsonBuilder.AppendInto key Missing dest = (Return tt, dest)
      /\ bson_get_data (snd (BsonBuilder.AppendInto key Missing dest)) = bson_get_data dest)
  /\ (forall bv doc,
         exists bson,
           BsonBuilder.from_value (Node bv (ParsedDocument doc)) = Return (owning bson)
           /\ bson_count_keys bson = length (present_entries doc))
  /\ (forall bv k1 b1 p1 k2,
         exists e1 e2,
           BsonBuilder.from_value (Node bv (ParsedDocument [(k1, Node b1 p1); (k2, Missing)]))
           = Return (owning [e1])
           /\ BsonBuilder.from_value (Node bv (ParsedDocument [(k2, Missing); (k1, Node b1 p1)]))
              = Return (owning [e2]))
  /\ (forall bv before behind,
         BsonBuilder.from_value (Node bv (ParsedArray (before ++ Missing :: behind)))
         = Return (owning
                     (flat_map_from (fun i elem => encoded (pretty i) elem) 0%N before
                      ++ flat_map_from (fun i elem => encoded (pretty i) elem)
                           (N.of_nat (S (length before))) behind))).
Proof.
  split; [|split; [|split]].
  - intros key dest. split; reflexivity.
  - intros bv doc. eexists. split; [apply from_value_document|].
    unfold bson_count_keys, bson_keys.
    rewrite <- (length_map fst), <- (length_map fst (present_entries doc)).
    f_equal. apply document_keys.
  - intros. destruct p1 as [|d|a]; do 2 eexists;
      split; rewrite from_value_document; reflexivity.
  - intros bv before behind. rewrite from_value_array, flat_map_from_app.
    replace (N.of_nat (S (length before)))
      with (N.succ (0 + N.of_nat (length before))) by lia.
    reflexivity.
Qed.

(* ===================================================================== *)
(** ** Documents *)

(** C8: a Document node is emitted as its (key, child) pairs in insertion
    order: each pair contributes its own elements, one after the other, both
    for the root document and for a document nested under a key (whose
    children are documents of the same kind again); the emitted keys are the
    keys of the entries that are not Missing, in insertion order, they are the
    keys read back from the bytes, and the bytes of the sub-document are the
    elements' bytes in that order. *)
Theorem document_in_insertion_order :
  forall bv doc,
    let children := flat_map (fun entry => encoded (fst entry) (snd entry)) doc in
    BsonBuilder.from_value (Node bv (ParsedDocument doc)) = Return (owning children)
    /\ (forall key dest,
           BsonBuilder.AppendInto key (Node bv (ParsedDocument doc)) dest
           = (Return tt, dest ++ [(key, V_DOCUMENT children)]))
    /\ bson_keys children = List.map fst (present_entries doc)
    /\ bson_get_data children
       = document_bytes
           (flat_map (fun entry => flat_map element_bytes (encoded (fst entry) (snd entry)))
              doc)
    /\ (Forall readable children ->
        read_document_keys (bson_get_data children)
        = Some (List.map bytes_of_string (List.map fst (present_entries doc)))).
Proof.
  intros bv doc children. split; [|split; [|split; [|split]]].
  - apply from_value_document.
  - intros key dest. now rewrite AppendInto_encoded.
  - apply document_keys.
  - rewrite bson_get_data_elements. f_equal. subst children.
    induction doc as [|entry tl IH]; [reflexivity|].
    simpl. now rewrite flat_map_app, IH.
  - apply keys_on_the_wire, document_keys.
Qed.

(** A document within a document within a document: every level keeps its
    own order (and its duplicate key). *)
Example nested_documents_keep_order :
  BsonBuilder.from_value
    (Node V_NULL (ParsedDocument
       [("z", Node (V_INT32 1) nullptr);
        ("a", Node V_NULL (ParsedDocument
                [("y", Node (V_BOOL true) nullptr);
                 ("b", Node V_NULL (ParsedDocument
                         [("x", Node V_NULL nullptr); ("x", Node V_MINKEY nullptr)]));
                 ("c", Node (V_UTF8 "s") nullptr)]));
        ("m", Node V_MAXKEY nullptr)]))
  = Return (owning
      [("z", V_INT32 1);
       ("a", V_DOCUMENT
               [("y", V_BOOL true);
                ("b", V_DOCUMENT [("x", V_NULL); ("x", V_MINKEY)]);
                ("c", V_UTF8 "s")]);
       ("m", V_MAXKEY)]).
Proof. reflexivity. Qed.

(* ===================================================================== *)
(** ** The root of a tree *)

(** C6: constructing the builder from a Missing root or from a null or
    scalar root throws [logic_error]; from a Document or an Array root it
    succeeds and the builder then owns what the children contribute,
    recursively. *)
Theorem root_must_be_container :
  BsonBuilder.from_value Missing
  = Throw (logic_error "Attempt to build a document from primitive type")
  /\ (forall bv,
         BsonBuilder.from_value (Node bv nullptr)
         = Throw (logic_error "Attempt to build a document from primitive type"))
  /\ (forall bv doc,
         BsonBuilder.from_value (Node bv (ParsedDocument doc))
         = Return (owning (flat_map (fun entry => encoded (fst entry) (snd entry)) doc)))
  /\ (forall bv array,
         BsonBuilder.from_value (Node bv (ParsedArray array))
         = Return (owning (flat_map_from (fun i elem => encoded (pretty i) elem) 0%N array))).
Proof.
  split; [reflexivity|]. split; [reflexivity|].
  split; [apply from_value_document | apply from_value_array].
Qed.

(* ===================================================================== *)
(** ** Nesting depth *)

Lemma depth_nest n : depth (nest n) = n.
Proof. induction n as [|n IH]; [reflexivity|]. simpl. now rewrite IH, Nat.max_0_r. Qed.

(** C5 does not hold as stated: 201 nested documents are deeper than the
    ceiling and are encoded without any exception. *)
Lemma deep_tree_is_encoded : ~ deep_tree_is_rejected (nest 201).
Proof.
  intros H. destruct (H ltac:(vm_compute; lia) "k" []) as (what & dest' & E).
  rewrite AppendInto_encoded in E. discriminate E.
Qed.

(** *** The output nests as deep as the tree *)

Lemma list_max_cons x l : list_max (x :: l) = Nat.max x (list_max l).
Proof. reflexivity. Qed.

Lemma levels_document l : levels (V_DOCUMENT l) = S (deepest_level l).
Proof.
  cbn [levels]. f_equal. unfold deepest_level.
  induction l as [|[k x] tl IH]; [reflexivity|]. simpl. now rewrite IH.
Qed.

Lemma levels_array l : levels (V_ARRAY l) = S (deepest_level l).
Proof. apply levels_document. Qed.

Lemma deepest_level_app a b :
  deepest_level (a ++ b) = Nat.max (deepest_level a) (deepest_level b).
Proof. unfold deepest_level. now rewrite List.map_app, list_max_app. Qed.

(** The nesting depth of the entries of a document and of the elements of an
    array, as [depth] counts it. *)
Lemma depth_document bv doc :
  depth (Node bv (ParsedDocument doc))
  = S (list_max (List.map (fun entry => depth (snd entry)) doc)).
Proof.
  cbn [depth]. f_equal.
  induction doc as [|[k elem] tl IH]; [reflexivity|]. simpl. now rewrite IH.
Qed.

Lemma depth_array bv array :
  depth (Node bv (ParsedArray array)) = S (list_max (List.map depth array)).
Proof.
  cbn [depth]. f_equal.
  induction array as [|elem tl IH]; [reflexivity|]. simpl. now rewrite IH.
Qed.

(** Every level of the tree is descended into: what a node contributes is
    nested at least as deep as the node. *)
Lemma encoded_reaches_every_level value :
  forall key, (depth value <= deepest_level (encoded key value))%nat.
Proof.
  induction value as [|bv|bv doc IH|bv array IH] using ValueImpl_tree_ind;
    intros key.
  - simpl. lia.
  - simpl. lia.
  - rewrite depth_document. cbn [encoded]. unfold deepest_level at 1.
    cbn [List.map snd]. rewrite levels_document.
    apply Nat.le_trans with
      (S (deepest_level (flat_map (fun entry => encoded (fst entry) (snd entry)) doc)));
      [|rewrite list_max_cons; lia].
    apply le_n_S.
    induction IH as [|[k elem] tl Helem _ IHtl]; [simpl; lia|].
    cbn [List.map flat_map fst snd]. rewrite list_max_cons, deepest_level_app.
    specialize (Helem k). simpl in Helem. lia.
  - rewrite depth_array. cbn [encoded]. unfold deepest_level at 1.
    cbn [List.map snd]. rewrite levels_array.
    apply Nat.le_trans with
      (S (deepest_level (flat_map_from (fun i elem => encoded (pretty i) elem) 0%N array)));
      [|rewrite list_max_cons; lia].
    apply le_n_S. generalize 0%N.
    induction IH as [|elem tl Helem _ IHtl]; intros i; [simpl; lia|].
    cbn [List.map flat_map_from]. rewrite list_max_cons, deepest_level_app.
    specialize (Helem (pretty i)). specialize (IHtl (N.succ i)). lia.
Qed.

Lemma encoded_nest n key :
  exists v, encoded key (nest n) = [(key, v)] /\ levels v = n.
Proof.
  revert key. induction n as [|n IH]; intros key.
  - exists V_NULL. split; reflexivity.
  - destruct (IH "a") as (v & Hv & Hl).
    exists (V_DOCUMENT [("a", v)]). split.
    + cbn [nest encoded flat_map fst snd]. rewrite Hv. reflexivity.
    + rewrite levels_document. unfold deepest_level. simpl. rewrite Hl. lia.
Qed.

(** C5, as the code has it: the traversal carries no depth counter and never
    throws [BsonException], on account of depth or otherwise; it descends
    into every level: a node that is not Missing is emitted as one element
    nested at least as deep as the node, and a chain of [n] nested documents
    is emitted as an element nested exactly [n] deep, for every [n], the
    ceiling of 200 or not. *)
Theorem traversal_has_no_depth_check :
  (forall key value dest what dest',
      BsonBuilder.AppendInto key value dest <> (Throw (BsonException what), dest'))
  /\ (forall key bv parsed dest,
         exists v,
           BsonBuilder.AppendInto key (Node bv parsed) dest
           = (Return tt, dest ++ [(key, v)])
           /\ (depth (Node bv parsed) <= levels v)%nat)
  /\ (forall n key dest,
         depth (nest n) = n
         /\ exists v,
              BsonBuilder.AppendInto key (nest n) dest = (Return tt, dest ++ [(key, v)])
              /\ levels v = n)
  /\ (depth_ceiling < depth (nest 201))%nat.
Proof.
  split; [|split; [|split]].
  - intros key value dest what dest'. rewrite AppendInto_encoded. discriminate.
  - intros key bv parsed dest.
    pose proof (encoded_reaches_every_level (Node bv parsed) key) as H.
    assert (E : exists v, encoded key (Node bv parsed) = [(key, v)])
      by (destruct parsed; eexists; reflexivity).
    destruct E as (v & E). exists v. rewrite AppendInto_encoded, E.
    split; [reflexivity|]. rewrite E in H. unfold deepest_level in H.
    cbn [List.map snd] in H. rewrite list_max_cons in H.
    change (list_max []) with 0%nat in H. lia.
  - intros n key dest. split; [apply depth_nest|].
    destruct (encoded_nest n key) as (v & Hv & Hl).
    exists v. rewrite AppendInto_encoded, Hv. now split.
  - rewrite depth_nest. unfold depth_ceiling. lia.
Qed.

(* ===================================================================== *)
(** ** Unsigned 64-bit values *)

Lemma static_cast_int64_small v : 0 <= v <= INT64_MAX -> static_cast_int64 v = v.
Proof.
  unfold static_cast_int64, INT64_MAX. intros H.
  rewrite Z.mod_small by lia.
  destruct (Z.ltb_spec v (2 ^ 63)); lia.
Qed.

Lemma Append_int64_not_BsonException key v self what :
  fst (BsonBuilder.Append_int64 key v self) <> Throw (BsonException what).
Proof. destruct self as [[bson|]]; discriminate. Qed.

(** C2: [Append(key, uint64_t v)] throws [BsonException] exactly when [v] is
    above the largest signed 64-bit value, and then leaves the builder as it
    was; at or below it the call is the signed append of the same value.  At
    the largest signed value it succeeds with the bytes ff .. ff 7f of the
    signed integer; one above, it throws. *)
Theorem uint64_append_checks_range :
  forall key v self,
    is_uint64 v ->
    ((exists what, fst (BsonBuilder.Append_uint64 key v self) = Throw (BsonException what))
     <-> INT64_MAX < v)
    /\ (INT64_MAX < v ->
        exists what,
          BsonBuilder.Append_uint64 key v self = (Throw (BsonException what), self))
    /\ (v <= INT64_MAX ->
        BsonBuilder.Append_uint64 key v self = BsonBuilder.Append_int64 key v self)
    /\ (forall bson,
           BsonBuilder.Append_uint64 key INT64_MAX (owning bson)
           = (Return tt, owning (bson ++ [(key, V_INT64 INT64_MAX)])))
    /\ payload (V_INT64 INT64_MAX) = [255; 255; 255; 255; 255; 255; 255; 127]
    /\ (exists what,
           BsonBuilder.Append_uint64 key (INT64_MAX + 1) self
           = (Throw (BsonException what), self)).
Proof.
  intros key v self [Hlo Hhi].
  assert (Hmax : static_cast_uint64 INT64_MAX = INT64_MAX) by reflexivity.
  assert (Hthrow : INT64_MAX < v ->
                   exists what,
                     BsonBuilder.Append_uint64 key v self
                     = (Throw (BsonException what), self)).
  { intros H. unfold BsonBuilder.Append_uint64. rewrite Hmax.
    replace (v >? INT64_MAX) with true by lia. eexists. reflexivity. }
  split; [split|split; [exact Hthrow|split; [|split; [|split]]]].
  - intros [what H]. unfold BsonBuilder.Append_uint64 in H. rewrite Hmax in H.
    destruct (v >? INT64_MAX) eqn:E; [lia|].
    exfalso. revert H. apply Append_int64_not_BsonException.
  - intros H. destruct (Hthrow H) as [what E]. exists what. now rewrite E.
  - intros H. unfold BsonBuilder.Append_uint64. rewrite Hmax.
    replace (v >? INT64_MAX) with false by lia.
    now rewrite static_cast_int64_small by lia.
  - intros bson. reflexivity.
  - reflexivity.
  - eexists. reflexivity.
Qed.

(** The range check at the largest signed value, on a fresh builder. *)
Lemma uint64_append_checks_range_at_max :
  is_uint64 INT64_MAX
  /\ (((exists what,
          fst (BsonBuilder.Append_uint64 "n" INT64_MAX BsonBuilder.default)
          = Throw (BsonException what))
       <-> INT64_MAX < INT64_MAX)
      /\ (INT64_MAX < INT64_MAX ->
          exists what,
            BsonBuilder.Append_uint64 "n" INT64_MAX BsonBuilder.default
            = (Throw (BsonException what), BsonBuilder.default))
      /\ (INT64_MAX <= INT64_MAX ->
          BsonBuilder.Append_uint64 "n" INT64_MAX BsonBuilder.default
          = BsonBuilder.Append_int64 "n" INT64_MAX BsonBuilder.default)
      /\ (forall bson,
             BsonBuilder.Append_uint64 "n" INT64_MAX (owning bson)
             = (Return tt, owning (bson ++ [("n", V_INT64 INT64_MAX)])))
      /\ payload (V_INT64 INT64_MAX) = [255; 255; 255; 255; 255; 255; 255; 127]
      /\ (exists what,
             BsonBuilder.Append_uint64 "n" (INT64_MAX + 1) BsonBuilder.default
             = (Throw (BsonException what), BsonBuilder.default))).
Proof.
  assert (H : is_uint64 INT64_MAX) by (unfold is_uint64, INT64_MAX, UINT64_MAX; lia).
  split; [exact H | exact (uint64_append_checks_range "n" INT64_MAX BsonBuilder.default H)].
Defined.

(* ===================================================================== *)
(** ** Strings *)

(** *** [IsValid] accepts exactly the encodings of scalar values *)

Ltac divlia := Z.div_mod_to_equations; lia.

(** Settle the comparisons of the goal that the hypotheses decide. *)
Ltac settle_tests :=
  repeat first
    [ match goal with
      | |- context [?a <=? ?b] =>
          first [ replace (a <=? b) with true by divlia
                | replace (a <=? b) with false by divlia ]
      | |- context [?a =? ?b] =>
          first [ replace (a =? b) with true by divlia
                | replace (a =? b) with false by divlia ]
      end
    | progress cbn [andb] ].

Lemma IsValid_encode cp rest :
  utf8.is_scalar_value cp -> utf8.IsValid (utf8.encode cp ++ rest) = utf8.IsValid rest.
Proof.
  intros Hcp. unfold utf8.encode.
  destruct (Z.leb_spec cp 0x7F) as [H1|H1];
    [|destruct (Z.leb_spec cp 0x7FF) as [H2|H2];
      [|destruct (Z.leb_spec cp 0xFFFF) as [H3|H3]]];
    cbn [app utf8.IsValid];
    unfold utf8.second_of_three, utf8.second_of_four, utf8.is_continuation, utf8.in_range.
  - now settle_tests.
  - destruct Hcp as [Hcp|Hcp]; [|lia]. now settle_tests.
  - destruct (Z.eqb_spec (0xE0 + cp / 4096) 0xE0) as [E|E];
      [|destruct (Z.eqb_spec (0xE0 + cp / 4096) 0xED) as [E'|E']];
      destruct Hcp as [Hcp|Hcp]; now settle_tests.
  - destruct Hcp as [Hcp|Hcp]; [lia|].
    destruct (Z.eqb_spec (0xF0 + cp / 262144) 0xF0) as [E|E];
      [|destruct (Z.eqb_spec (0xF0 + cp / 262144) 0xF4) as [E'|E']];
      now settle_tests.
Qed.

Lemma well_formed_nil : utf8.well_formed [].
Proof. exists []. split; [constructor | reflexivity]. Qed.

Lemma well_formed_app cp bytes rest :
  utf8.is_scalar_value cp -> utf8.encode cp = bytes -> utf8.well_formed rest ->
  utf8.well_formed (bytes ++ rest).
Proof.
  intros Hcp <- (cps & Hall & ->). exists (cp :: cps).
  split; [now constructor | reflexivity].
Qed.

Lemma decode_two b0 b1 :
  utf8.in_range 0xC2 0xDF b0 = true -> utf8.is_continuation b1 = true ->
  exists cp, utf8.is_scalar_value cp /\ utf8.encode cp = [b0; b1].
Proof.
  unfold utf8.is_continuation, utf8.in_range. intros H0 H1.
  apply andb_prop in H0 as [? ?]. apply andb_prop in H1 as [? ?].
  exists ((b0 - 0xC0) * 64 + (b1 - 0x80)). split.
  - left. lia.
  - unfold utf8.encode. settle_tests. repeat f_equal; divlia.
Qed.

Lemma decode_three b0 b1 b2 :
  utf8.in_range 0xE0 0xEF b0 = true -> utf8.second_of_three b0 b1 = true ->
  utf8.is_continuation b2 = true ->
  exists cp, utf8.is_scalar_value cp /\ utf8.encode cp = [b0; b1; b2].
Proof.
  unfold utf8.second_of_three, utf8.is_continuation, utf8.in_range. intros H0 H1 H2.
  apply andb_prop in H0 as [? ?]. apply andb_prop in H2 as [? ?].
  exists ((b0 - 0xE0) * 4096 + (b1 - 0x80) * 64 + (b2 - 0x80)).
  destruct (Z.eqb_spec b0 0xE0); [|destruct (Z.eqb_spec b0 0xED)];
    apply andb_prop in H1 as [? ?]; (split;
    [ unfold utf8.is_scalar_value; lia
    | unfold utf8.encode; settle_tests; repeat f_equal; divlia ]).
Qed.

Lemma decode_four b0 b1 b2 b3 :
  utf8.in_range 0xF0 0xF4 b0 = true -> utf8.second_of_four b0 b1 = true ->
  utf8.is_continuation b2 = true -> utf8.is_continuation b3 = true ->
  exists cp, utf8.is_scalar_value cp /\ utf8.encode cp = [b0; b1; b2; b3].
Proof.
  unfold utf8.second_of_four, utf8.is_continuation, utf8.in_range. intros H0 H1 H2 H3.
  apply andb_prop in H0 as [? ?]. apply andb_prop in H2 as [? ?].
  apply andb_prop in H3 as [? ?].
  exists ((b0 - 0xF0) * 262144 + (b1 - 0x80) * 4096 + (b2 - 0x80) * 64 + (b3 - 0x80)).
  destruct (Z.eqb_spec b0 0xF0); [|destruct (Z.eqb_spec b0 0xF4)];
    apply andb_prop in H1 as [? ?]; (split;
    [ unfold utf8.is_scalar_value; lia
    | unfold utf8.encode; settle_tests; repeat f_equal; divlia ]).
Qed.

Lemma IsValid_well_formed_bounded n :
  forall data,
    (length data <= n)%nat -> Forall (fun b => 0 <= b) data ->
    utf8.IsValid data = true -> utf8.well_formed data.
Proof.
  induction n as [|n IH]; intros data Hlen Hpos Hvalid.
  - destruct data; [apply well_formed_nil | simpl in Hlen; lia].
  - destruct data as [|b0 t0]; [apply well_formed_nil|].
    apply Forall_cons in Hpos as [Hb0 Hpos]. simpl in Hlen.
    cbn [utf8.IsValid] in Hvalid.
    destruct (Z.leb_spec b0 0x7F) as [Hascii|_].
    { apply (well_formed_app b0 [b0]).
      - left. lia.
      - unfold utf8.encode. now settle_tests.
      - apply IH; [lia | assumption | assumption]. }
    destruct t0 as [|b1 t1]; [discriminate|].
    apply Forall_cons in Hpos as [_ Hpos]. simpl in Hlen.
    destruct (utf8.in_range 0xC2 0xDF b0) eqn:Htwo.
    { apply andb_prop in Hvalid as [Hc1 Hvalid].
      destruct (decode_two b0 b1 Htwo Hc1) as (cp & Hcp & Henc).
      apply (well_formed_app cp [b0; b1]); [assumption | assumption|].
      apply IH; [lia | assumption | assumption]. }
    destruct t1 as [|b2 t2]; [discriminate|].
    apply Forall_cons in Hpos as [_ Hpos]. simpl in Hlen.
    destruct (utf8.in_range 0xE0 0xEF b0) eqn:Hthree.
    { apply andb_prop in Hvalid as [Hvalid Hrest].
      apply andb_prop in Hvalid as [Hc1 Hc2].
      destruct (decode_three b0 b1 b2 Hthree Hc1 Hc2) as (cp & Hcp & Henc).
      apply (well_formed_app cp [b0; b1; b2]); [assumption | assumption|].
      apply IH; [lia | assumption | assumption]. }
    destruct t2 as [|b3 t3]; [discriminate|].
    apply Forall_cons in Hpos as [_ Hpos]. simpl in Hlen.
    apply andb_prop in Hvalid as [Hvalid Hrest].
    apply andb_prop in Hvalid as [Hvalid Hc3].
    apply andb_prop in Hvalid as [Hvalid Hc2].
    apply andb_prop in Hvalid as [Hfour Hc1].
    destruct (decode_four b0 b1 b2 b3 Hfour Hc1 Hc2 Hc3) as (cp & Hcp & Henc).
    apply (well_formed_app cp [b0; b1; b2; b3]); [assumption | assumption|].
    apply IH; [lia | assumption | assumption].
Qed.

Lemma IsValid_iff_well_formed data :
  Forall (fun b => 0 <= b) data ->
  utf8.IsValid data = true <-> utf8.well_formed data.
Proof.
  intros Hpos. split.
  - now apply (IsValid_well_formed_bounded (length data)).
  - intros (cps & Hall & ->). clear Hpos.
    induction Hall as [|cp cps Hcp _ IH]; [reflexivity|].
    simpl flat_map. now rewrite IsValid_encode.
Qed.

Lemma bytes_of_string_nonneg s : Forall (fun b => 0 <= b) (bytes_of_string s).
Proof.
  unfold bytes_of_string. apply Forall_forall. intros b Hb.
  apply list_elem_of_In, in_map_iff in Hb as (c & <- & _).
  unfold byte_of_ascii. lia.
Qed.

(** *** The string overload *)

Lemma bson_Get_not_BsonException {A} (use : M bson_t A) self what :
  (forall bson, fst (use bson) <> Throw (BsonException what)) ->
  fst (BsonBuilder.bson_Get use self) <> Throw (BsonException what).
Proof.
  intros H. destruct self as [[bson|]]; unfold BsonBuilder.bson_Get; simpl.
  - specialize (H bson). destruct (use bson) as [r bson']. exact H.
  - discriminate.
Qed.

(** C3: [Append(key, string)] throws [BsonException] exactly when the string
    is not valid UTF-8, that is when its bytes are not the encoding of a
    sequence of Unicode scalar values, and then leaves the builder as it was.
    The string made of the single continuation byte 0x80 is rejected; the
    empty string is appended as a string of length zero, whose payload is the
    length prefix counting only the terminator, and the terminator. *)
Theorem string_append_checks_utf8 :
  forall key value self,
    ((exists what, fst (BsonBuilder.Append_string key value self) = Throw (BsonException what))
     <-> ~ utf8.well_formed (bytes_of_string value))
    /\ (utf8.IsValid (bytes_of_string value) = true
        <-> utf8.well_formed (bytes_of_string value))
    /\ (if utf8.IsValid (bytes_of_string value)
        then BsonBuilder.Append_string key value self
             = BsonBuilder.bson_Get (modify (bson_append_utf8 key value)) self
        else BsonBuilder.Append_string key value self
             = (Throw (BsonException "BSON strings must be valid UTF-8"), self))
    /\ BsonBuilder.Append_string key (String (ascii_of_nat 128) EmptyString) self
       = (Throw (BsonException "BSON strings must be valid UTF-8"), self)
    /\ (forall bson,
           BsonBuilder.Append_string key "" (owning bson)
           = (Return tt, owning (bson ++ [(key, V_UTF8 "")])))
    /\ String.length "" = 0%nat
    /\ payload (V_UTF8 "") = [1; 0; 0; 0; 0].
Proof.
  intros key value self.
  pose proof (IsValid_iff_well_formed _ (bytes_of_string_nonneg value)) as Hspec.
  split; [|split; [exact Hspec|split; [|repeat split]]].
  - rewrite <- Hspec. unfold BsonBuilder.Append_string.
    destruct (utf8.IsValid (bytes_of_string value)); simpl; split.
    + intros [what H]. exfalso. revert H. apply bson_Get_not_BsonException.
      discriminate.
    + intros H. now contradiction H.
    + discriminate.
    + intros _. eexists. reflexivity.
  - unfold BsonBuilder.Append_string.
    destruct (utf8.IsValid (bytes_of_string value)); reflexivity.
Qed.

(* ===================================================================== *)
(** ** Values *)

(** C10: [Append(key, Value)] on a Missing value throws before anything is
    written, the builder is left as it was, whereas the traversal skips a
    Missing child without an error; for a value that is not Missing the
    builder appends the value's own typed payload under the key. *)
Theorem value_append_rejects_missing :
  forall key,
    (forall self,
        BsonBuilder.Append_Value key Missing self = (Throw MissingValue, self))
    /\ (forall dest, BsonBuilder.AppendInto key Missing dest = (Return tt, dest))
    /\ (forall native parsed bson,
           BsonBuilder.Append_Value key (Node native parsed) (owning bson)
           = (Return tt, owning (bson ++ [(key, native)]))
           /\ element_bytes (key, native)
              = type_code native :: bytes_of_string key ++ [0] ++ payload native).
Proof.
  intros key. split; [|split].
  - intros self. reflexivity.
  - intros dest. reflexivity.
  - intros native parsed bson. split; reflexivity.
Qed.

(* ===================================================================== *)
(** ** Extraction *)

Lemma bson_Get_extracted {A} (use : M bson_t A) :
  BsonBuilder.bson_Get use extracted = (Throw MutableBson.extracted_access, extracted).
Proof. reflexivity. Qed.

(** An overload without a check of its own does fail with [logic_error]. *)
Lemma append_null_after_extract key :
  append_after_extract_is_logic_error (BsonBuilder.Append_null key).
Proof. intros bson. eexists. reflexivity. Qed.

(** C7 does not hold as stated: after [Extract()], appending an unsigned
    value above the signed range throws [BsonException], not [logic_error]:
    the range check comes before the buffer is touched. *)
Lemma append_after_extract_range_error :
  ~ append_after_extract_is_logic_error (BsonBuilder.Append_uint64 "k" (INT64_MAX + 1)).
Proof.
  intros H. destruct (H []) as [what E]. vm_compute in E. discriminate E.
Qed.

(** C7, as the code has it: the first [Extract()] hands over the document and
    leaves the builder extracted; a second [Extract()] throws [logic_error];
    [Extract()] on a builder nothing was appended to gives the empty document,
    five bytes long, which reads back as a document without elements.  After
    extraction every [Append] overload throws and the builder stays
    extracted.  The exception is [logic_error] when the overload goes
    straight to the buffer or its argument passes the overload's own check;
    it is the check's own exception otherwise: the [BsonException] with the
    range message for an unsigned value above the signed maximum, the
    [BsonException] with the UTF-8 message for a string (given as
    [string_view] or as C string) that is not valid UTF-8, and the
    missing-value exception for a Missing value. *)
Theorem extract_is_single_use :
  (forall bson,
      BsonBuilder.Extract (owning bson) = (Return bson, extracted)
      /\ (BsonBuilder.Extract ;; BsonBuilder.Extract) (owning bson)
         = (Throw MutableBson.extracted_access, extracted))
  /\ BsonBuilder.Extract extracted = (Throw MutableBson.extracted_access, extracted)
  /\ (MutableBson.state (BsonBuilder.bson_ BsonBuilder.default) = MutableBson.Empty
      /\ BsonBuilder.Extract BsonBuilder.default = (Return [], extracted)
      /\ bson_get_data [] = [5; 0; 0; 0; 0]
      /\ read_document_keys (bson_get_data []) = Some [])
  /\ (forall key,
         let fails (append : M BsonBuilder.t unit) :=
           append extracted = (Throw MutableBson.extracted_access, extracted) in
         let fails_with (e : exception) (append : M BsonBuilder.t unit) :=
           append extracted = (Throw e, extracted) in
         let too_high (v : Z) :=
           BsonException
             ("The value " +:+ pretty v +:+ " of '" +:+ key +:+ "' is too high for BSON") in
         let not_utf8 := BsonException "BSON strings must be valid UTF-8" in
         fails (BsonBuilder.Append_null key)
         /\ (forall v, fails (BsonBuilder.Append_bool key v))
         /\ (forall v, fails (BsonBuilder.Append_int32 key v))
         /\ (forall v, fails (BsonBuilder.Append_int64 key v))
         /\ (forall v, fails (BsonBuilder.Append_long_long key v))
         /\ (forall v, fails (BsonBuilder.Append_double key v))
         /\ (forall v, fails (BsonBuilder.Append_time_point key v))
         /\ (forall v, fails (BsonBuilder.Append_Oid key v))
         /\ (forall v, fails (BsonBuilder.Append_Binary key v))
         /\ (forall h l, fails (BsonBuilder.Append_Decimal128 key h l))
         /\ fails (BsonBuilder.Append_MinKey key)
         /\ fails (BsonBuilder.Append_MaxKey key)
         /\ (forall t i, fails (BsonBuilder.Append_Timestamp key t i))
         /\ (forall sub, fails (BsonBuilder.Append_bson key sub))
         /\ (forall v,
                fails_with
                  (if INT64_MAX <? v then too_high v else MutableBson.extracted_access)
                  (BsonBuilder.Append_uint64 key v))
         /\ (forall v,
                fails_with
                  (if INT64_MAX <? v then too_high v else MutableBson.extracted_access)
                  (BsonBuilder.Append_unsigned_long_long key v))
         /\ (forall v,
                fails_with
                  (if utf8.IsValid (bytes_of_string v)
                   then MutableBson.extracted_access else not_utf8)
                  (BsonBuilder.Append_string key v))
         /\ (forall chars,
                fails_with
                  (if utf8.IsValid (bytes_of_string (BsonBuilder.until_null chars))
                   then MutableBson.extracted_access else not_utf8)
                  (BsonBuilder.Append_cstr key chars))
         /\ (forall v,
                fails_with
                  (if IsMissing v then MissingValue else MutableBson.extracted_access)
                  (BsonBuilder.Append_Value key v))
         /\ (forall value,
                exists e,
                  BsonBuilder.Append key value extracted = (Throw e, extracted)
                  /\ (e = MutableBson.extracted_access <-> refused value = false)))
  /\ MutableBson.extracted_access = logic_error "Access to an extracted document".
Proof.
  assert (Huint : forall key v,
             BsonBuilder.Append_uint64 key v extracted
             = (Throw (if INT64_MAX <? v
                       then BsonException
                              ("The value " +:+ pretty v +:+ " of '" +:+ key
                               +:+ "' is too high for BSON")
                       else MutableBson.extracted_access), extracted)).
  { intros key v. unfold BsonBuilder.Append_uint64.
    change (static_cast_uint64 INT64_MAX) with INT64_MAX.
    destruct (Z.ltb_spec INT64_MAX v) as [H|H].
    - now replace (v >? INT64_MAX) with true by lia.
    - now replace (v >? INT64_MAX) with false by lia. }
  assert (Hstring : forall key v,
             BsonBuilder.Append_string key v extracted
             = (Throw (if utf8.IsValid (bytes_of_string v)
                       then MutableBson.extracted_access
                       else BsonException "BSON strings must be valid UTF-8"),
                extracted)).
  { intros key v. unfold BsonBuilder.Append_string.
    now destruct (utf8.IsValid (bytes_of_string v)). }
  assert (Hvalue : forall key v,
             BsonBuilder.Append_Value key v extracted
             = (Throw (if IsMissing v then MissingValue
                       else MutableBson.extracted_access), extracted)).
  { intros key [|native parsed]; reflexivity. }
  split; [|split; [|split; [|split]]]; try reflexivity.
  - intros bson. split; reflexivity.
  - repeat split.
  - intros key fails fails_with too_high not_utf8.
    subst fails fails_with too_high not_utf8. cbv beta.
    do 14 (split; [reflexivity|]).
    split; [apply Huint|]. split; [apply Huint|].
    split; [apply Hstring|]. split; [intros chars; apply Hstring|].
    split; [apply Hvalue|].
    intros value.
    destruct value; cbn [refused BsonBuilder.Append]; eexists;
      (split;
       [ first [ reflexivity | apply Huint | apply Hstring | apply Hvalue ]
       | ]);
      try (split; reflexivity).
    + destruct (INT64_MAX <? value); split; (reflexivity || discriminate).
    + destruct (INT64_MAX <? value); split; (reflexivity || discriminate).
    + destruct (utf8.IsValid (bytes_of_string (BsonBuilder.until_null value)));
        split; (reflexivity || discriminate).
    + destruct (utf8.IsValid (bytes_of_string value));
        split; (reflexivity || discriminate).
    + destruct (IsMissing impl_); split; (reflexivity || discriminate).
Qed.

(* ===================================================================== *)
(** ** The value dictionary *)

Section ValueDictLookup.
Context {ValueType : Type}.
Variable kValueDictDefaultName : string.

Lemma find_lookup (dict : gmap string ValueType) key :
  taxi_config.find dict key = (fun value => (key, value)) <$> dict !! key.
Proof. unfold taxi_config.find. now destruct (dict !! key). Qed.

(** C9: a lookup by string key returns the value stored under the key when
    there is one; otherwise the value stored under the reserved default key
    when there is one; otherwise [operator[]] (and [Get]) throws a
    [runtime_error] whose message names the requested key.  [GetOptional]
    follows the same two fallback steps and gives [boost::none] where
    [operator[]] throws. *)
Theorem lookup_falls_back_to_default :
  forall (self : taxi_config.ValueDict ValueType) (key : string),
    (forall value,
        taxi_config.dict_ self !! key = Some value ->
        taxi_config.operator_index kValueDictDefaultName self key = Return value
        /\ taxi_config.GetOptional kValueDictDefaultName self key = Some value)
    /\ (forall value,
           taxi_config.dict_ self !! key = None ->
           taxi_config.dict_ self !! kValueDictDefaultName = Some value ->
           taxi_config.operator_index kValueDictDefaultName self key = Return value
           /\ taxi_config.GetOptional kValueDictDefaultName self key = Some value)
    /\ (taxi_config.dict_ self !! key = None ->
        taxi_config.dict_ self !! kValueDictDefaultName = None ->
        taxi_config.operator_index kValueDictDefaultName self key
        = Throw (runtime_error
                   ("no value for '" +:+ key +:+ "'" +:+ taxi_config.in_name self))
        /\ taxi_config.GetOptional kValueDictDefaultName self key = None)
    /\ taxi_config.Get kValueDictDefaultName self key
       = taxi_config.operator_index kValueDictDefaultName self key.
Proof.
  intros self key.
  unfold taxi_config.operator_index, taxi_config.GetOptional.
  rewrite !find_lookup.
  split; [|split; [|split]].
  - intros value ->. split; reflexivity.
  - intros value -> ->. split; reflexivity.
  - intros -> ->. split; reflexivity.
  - reflexivity.
Qed.

End ValueDictLookup.

(** The three cases on a dictionary named [cfg], with [__default__] as the
    reserved key. *)
Example lookup_cases :
  let with_default : taxi_config.ValueDict nat :=
    taxi_config.Build "cfg" (<["moscow" := 5%nat]> (<["__default__" := 1%nat]> ∅)) in
  let without_default : taxi_config.ValueDict nat :=
    taxi_config.Build "cfg" (<["moscow" := 5%nat]> ∅) in
  taxi_config.operator_index "__default__" with_default "moscow" = Return 5%nat
  /\ taxi_config.operator_index "__default__" with_default "spb" = Return 1%nat
  /\ taxi_config.operator_index "__default__" without_default "spb"
     = Throw (runtime_error "no value for 'spb' in cfg")
  /\ taxi_config.GetOptional "__default__" without_default "spb" = None.
Proof. vm_compute. repeat split. Qed.

(* ===================================================================== *)
(** ** More on the value dictionary *)

Lemma length_append (a b : string) :
  String.length (a +:+ b) = (String.length a + String.length b)%nat.
Proof. induction a as [|c a IH]; simpl; [reflexivity | now rewrite IH]. Qed.

Lemma append_assoc (a b c : string) : (a +:+ b) +:+ c = a +:+ (b +:+ c).
Proof.
  induction a as [|x a IH]; [reflexivity|].
  change (String x ((a +:+ b) +:+ c) = String x (a +:+ (b +:+ c))). now f_equal.
Qed.

Lemma append_inv_tail (a b t : string) : a +:+ t = b +:+ t -> a = b.
Proof.
  revert b. induction a as [|c a IH]; intros [|d b] H.
  - reflexivity.
  - apply (f_equal String.length) in H. rewrite !length_append in H.
    simpl in H. lia.
  - apply (f_equal String.length) in H. rewrite !length_append in H.
    simpl in H. lia.
  - change (String c (a +:+ t) = String d (b +:+ t)) in H.
    injection H as -> H. f_equal. now apply IH.
Qed.

Section ValueDictMore.
Context {ValueType : Type}.
Variable kValueDictDefaultName : string.

(** X1: [operator[]] returns instead of throwing exactly when [HasValue(key)]
    or [HasDefaultValue()] holds; a stored key wins over the default; and
    [GetOptional] gives a value exactly where [operator[]] returns, the same
    one, and [boost::none] exactly where it throws. *)
Theorem lookup_returns_iff_key_or_default :
  forall (self : taxi_config.ValueDict ValueType) (key : string),
    ((exists value,
         taxi_config.operator_index kValueDictDefaultName self key = Return value)
     <-> taxi_config.HasValue self key
         || taxi_config.HasDefaultValue kValueDictDefaultName self = true)
    /\ (taxi_config.HasValue self key = true ->
        exists value,
          taxi_config.dict_ self !! key = Some value
          /\ taxi_config.operator_index kValueDictDefaultName self key = Return value)
    /\ (forall value,
           taxi_config.GetOptional kValueDictDefaultName self key = Some value
           <-> taxi_config.operator_index kValueDictDefaultName self key = Return value)
    /\ (taxi_config.GetOptional kValueDictDefaultName self key = None
        <-> exists e,
              taxi_config.operator_index kValueDictDefaultName self key = Throw e).
Proof.
  intros self key.
  unfold taxi_config.HasDefaultValue, taxi_config.HasValue,
    taxi_config.operator_index, taxi_config.GetOptional.
  rewrite !find_lookup.
  destruct (taxi_config.dict_ self !! key) as [v|];
    [|destruct (taxi_config.dict_ self !! kValueDictDefaultName) as [d|]]; simpl.
  - repeat split; try (intros; by eauto); try congruence.
    intros [e H]. discriminate.
  - repeat split; try (intros; by eauto); try congruence.
    intros [e H]. discriminate.
  - repeat split; try (intros; by eauto); try congruence; try discriminate.
    intros [v H]. discriminate.
Qed.

(** X2: asking without a key is asking for the default: [operator[]] on an
    empty optional, [operator[]] on the reserved key itself and
    [GetDefaultValue()] give the same result, the same exception included, and
    every key that is not stored gets that result when a default exists; with
    a key the optional overload is the string overload. *)
Theorem lookup_without_key_is_default :
  forall (self : taxi_config.ValueDict ValueType),
    taxi_config.operator_index_optional kValueDictDefaultName self None
    = taxi_config.GetDefaultValue kValueDictDefaultName self
    /\ taxi_config.operator_index kValueDictDefaultName self kValueDictDefaultName
       = taxi_config.GetDefaultValue kValueDictDefaultName self
    /\ (forall key,
           taxi_config.operator_index_optional kValueDictDefaultName self (Some key)
           = taxi_config.operator_index kValueDictDefaultName self key)
    /\ (forall key,
           taxi_config.HasValue self key = false ->
           taxi_config.HasDefaultValue kValueDictDefaultName self = true ->
           taxi_config.operator_index kValueDictDefaultName self key
           = taxi_config.GetDefaultValue kValueDictDefaultName self)
    /\ (taxi_config.HasDefaultValue kValueDictDefaultName self = false ->
        taxi_config.GetDefaultValue kValueDictDefaultName self
        = Throw (runtime_error
                   ("no value for '" +:+ kValueDictDefaultName +:+ "'"
                    +:+ taxi_config.in_name self))).
Proof.
  intros self.
  unfold taxi_config.HasDefaultValue, taxi_config.HasValue,
    taxi_config.operator_index, taxi_config.GetDefaultValue.
  split; [reflexivity|]. split; [|split; [reflexivity|split]].
  - rewrite find_lookup.
    now destruct (taxi_config.dict_ self !! kValueDictDefaultName).
  - intros key. rewrite !find_lookup.
    destruct (taxi_config.dict_ self !! key); [discriminate|].
    now destruct (taxi_config.dict_ self !! kValueDictDefaultName).
  - rewrite find_lookup.
    now destruct (taxi_config.dict_ self !! kValueDictDefaultName).
Qed.

(** X3: a dictionary built from a map that stores [value] under [key]
    returns [value] for [key]; when [key] is not the reserved key, every other
    lookup is what it was without the entry; and an entry under the reserved
    key makes every lookup return. *)
Theorem lookup_after_insert :
  forall (name : string) (dict : gmap string ValueType) (key : string)
         (value : ValueType),
    let self := taxi_config.Build name (<[key := value]> dict) in
    taxi_config.operator_index kValueDictDefaultName self key = Return value
    /\ (forall other,
           other <> key -> key <> kValueDictDefaultName ->
           taxi_config.operator_index kValueDictDefaultName self other
           = taxi_config.operator_index kValueDictDefaultName
               (taxi_config.Build name dict) other)
    /\ (key = kValueDictDefaultName ->
        forall other,
          taxi_config.operator_index kValueDictDefaultName self other
          = match dict !! other with
            | Some stored => if decide (other = key) then Return value else Return stored
            | None => Return value
            end).
Proof.
  intros name dict key value self. subst self.
  unfold taxi_config.operator_index. simpl. split; [|split].
  - rewrite find_lookup, lookup_insert_eq. reflexivity.
  - intros other Hother Hkey. rewrite !find_lookup.
    rewrite !lookup_insert_ne by congruence. reflexivity.
  - intros -> other. rewrite !find_lookup, lookup_insert_eq.
    destruct (decide (other = kValueDictDefaultName)) as [->|Hne].
    + rewrite lookup_insert_eq. simpl. now destruct (dict !! kValueDictDefaultName).
    + rewrite lookup_insert_ne by congruence.
      now destruct (dict !! other).
Qed.

(** X4: when a lookup throws, the message is [no value for 'key'], followed
    by [ in ] and the dictionary's name when it has one and by nothing when
    the name is empty; in one dictionary two different keys never give the
    same message; and a default-constructed dictionary throws the bare message
    for every key. *)
Theorem lookup_error_message :
  forall (self : taxi_config.ValueDict ValueType) (key : string),
    (taxi_config.HasValue self key = false ->
     taxi_config.HasDefaultValue kValueDictDefaultName self = false ->
     taxi_config.operator_index kValueDictDefaultName self key
     = Throw (runtime_error
                (if decide (taxi_config.name_ self = "")
                 then "no value for '" +:+ key +:+ "'"
                 else "no value for '" +:+ key +:+ "' in " +:+ taxi_config.name_ self)))
    /\ (forall other,
           taxi_config.no_value_for self key = taxi_config.no_value_for self other ->
           key = other)
    /\ taxi_config.operator_index kValueDictDefaultName
         (taxi_config.empty (ValueType := ValueType)) key
       = Throw (runtime_error ("no value for '" +:+ key +:+ "'"))
    /\ taxi_config.GetOptional kValueDictDefaultName
         (taxi_config.empty (ValueType := ValueType)) key = None.
Proof.
  intros self key. split; [|split; [|split]].
  - unfold taxi_config.HasDefaultValue, taxi_config.HasValue,
      taxi_config.operator_index.
    rewrite !find_lookup.
    destruct (taxi_config.dict_ self !! key); [discriminate|].
    destruct (taxi_config.dict_ self !! kValueDictDefaultName); [discriminate|].
    intros _ _. simpl. unfold taxi_config.no_value_for, taxi_config.in_name.
    destruct (decide (taxi_config.name_ self = "")) as [->|Hne].
    + reflexivity.
    + destruct (String.eqb_spec (taxi_config.name_ self) ""); [contradiction|].
      reflexivity.
  - intros other H. unfold taxi_config.no_value_for in H.
    injection H as H. apply (inj (String.append _)) in H.
    now apply append_inv_tail in H.
  - unfold taxi_config.operator_index, taxi_config.empty. simpl.
    rewrite !find_lookup, !lookup_empty. simpl.
    unfold taxi_config.no_value_for, taxi_config.in_name. simpl.
    reflexivity.
  - unfold taxi_config.GetOptional, taxi_config.empty. simpl.
    rewrite !find_lookup, !lookup_empty. reflexivity.
Qed.

End ValueDictMore.

(* ===================================================================== *)
(** ** More on the builder *)

(** What one [Append] does to a builder that owns its document. *)
Lemma Append_on_owning key value bson :
  if refused value
  then exists e,
         BsonBuilder.Append key value (owning bson) = (Throw e, owning bson)
         /\ e <> MutableBson.extracted_access
  else exists v,
         BsonBuilder.Append key value (owning bson)
         = (Return tt, owning (bson ++ [(key, v)])).
Proof.
  destruct value; simpl; try (eexists; reflexivity).
  - (* uint64_t *)
    unfold BsonBuilder.Append_uint64.
    change (static_cast_uint64 INT64_MAX) with INT64_MAX.
    destruct (Z.ltb_spec INT64_MAX value) as [H|H].
    + replace (value >? INT64_MAX) with true by lia.
      eexists. split; [reflexivity | discriminate].
    + replace (value >? INT64_MAX) with false by lia. eexists. reflexivity.
  - (* unsigned long long *)
    unfold BsonBuilder.Append_unsigned_long_long, BsonBuilder.Append_uint64.
    change (static_cast_uint64 INT64_MAX) with INT64_MAX.
    destruct (Z.ltb_spec INT64_MAX value) as [H|H].
    + replace (value >? INT64_MAX) with true by lia.
      eexists. split; [reflexivity | discriminate].
    + replace (value >? INT64_MAX) with false by lia. eexists. reflexivity.
  - (* const char* *)
    unfold BsonBuilder.Append_cstr, BsonBuilder.Append_string.
    destruct (utf8.IsValid (bytes_of_string (BsonBuilder.until_null value))); simpl.
    + eexists. reflexivity.
    + eexists. split; [reflexivity | discriminate].
  - (* string_view *)
    unfold BsonBuilder.Append_string.
    destruct (utf8.IsValid (bytes_of_string value)); simpl.
    + eexists. reflexivity.
    + eexists. split; [reflexivity | discriminate].
  - (* Value *)
    destruct impl_ as [|native parsed]; simpl.
    + eexists. split; [reflexivity | discriminate].
    + eexists. reflexivity.
Qed.

(** X5: on a builder that owns its document, every [Append] overload either
    returns with exactly one element added at the end, under the given key
    and with everything that was there before unchanged, or throws with the
    document exactly as it was; it throws only for an unsigned value above
    the signed maximum, a string that fails the UTF-8 check or a Missing
    value, and never with the error of an extracted builder. *)
Theorem append_one_element_or_nothing :
  forall key value bson,
    exists r bson',
      BsonBuilder.Append key value (owning bson) = (r, owning bson')
      /\ (refused value = false ->
          r = Return tt
          /\ bson_keys bson' = bson_keys bson ++ [key]
          /\ firstn (length bson) bson' = bson
          /\ bson_count_keys bson' = S (bson_count_keys bson))
      /\ (refused value = true ->
          bson' = bson
          /\ exists e, r = Throw e /\ e <> MutableBson.extracted_access)
      /\ (r = Return tt <-> refused value = false).
Proof.
  intros key value bson. pose proof (Append_on_owning key value bson) as H.
  destruct (refused value).
  - destruct H as (e & -> & He). exists (Throw e), bson.
    split; [reflexivity|]. split; [discriminate|]. split.
    + intros _. split; [reflexivity|]. now exists e.
    + split; discriminate.
  - destruct H as (v & ->). exists (Return tt), (bson ++ [(key, v)]).
    split; [reflexivity|]. split; [|split; [discriminate|done]].
    intros _. split; [reflexivity|]. split; [apply bson_keys_app|].
    split.
    + rewrite firstn_app, Nat.sub_diag, firstn_all. simpl. apply app_nil_r.
    + unfold bson_count_keys. rewrite length_app. simpl. lia.
Qed.

(** X6: a chain of [Append] calls runs up to the first refused call and
    stops there: the builder then holds what it held before, unchanged,
    followed by one element for each call before the refusal, in call order
    (nothing is rolled back); the chain returns exactly when no call is
    refused. *)
Theorem append_chain_stops_at_first_refusal :
  forall calls bson,
    exists bson',
      snd (BsonBuilder.AppendAll calls (owning bson)) = owning bson'
      /\ bson_keys bson' = bson_keys bson ++ List.map fst (accepted_prefix calls)
      /\ firstn (length bson) bson' = bson
      /\ (fst (BsonBuilder.AppendAll calls (owning bson)) = Return tt
          <-> accepted_prefix calls = calls).
Proof.
  unfold BsonBuilder.AppendAll.
  induction calls as [|[key value] tl IH]; intros bson.
  - exists bson. simpl. rewrite app_nil_r, firstn_all. done.
  - pose proof (Append_on_owning key value bson) as H.
    cbn [range_for accepted_prefix fst snd].
    destruct (refused value).
    + destruct H as (e & H & _). exists bson.
      rewrite (bind_throw _ _ _ _ _ H). simpl.
      rewrite app_nil_r, firstn_all. repeat split; discriminate.
    + destruct H as (v & H).
      destruct (IH (bson ++ [(key, v)])) as (bson' & Hs & Hk & Hp & Hr).
      exists bson'. rewrite (bind_return _ _ _ _ _ H).
      split; [exact Hs|]. split; [|split].
      * rewrite Hk, bson_keys_app. simpl. now rewrite <- app_assoc.
      * apply (f_equal (firstn (length bson))) in Hp.
        rewrite firstn_firstn, length_app, firstn_app, Nat.sub_diag, firstn_all in Hp.
        simpl in Hp. rewrite app_nil_r in Hp.
        rewrite Nat.min_l in Hp by lia. exact Hp.
      * rewrite Hr. split; [intros -> | intros Heq; injection Heq]; done.
Qed.

(** What a chain of accepted calls leaves. *)
Lemma AppendAll_values (items : list (string * bson_value_t)) bson :
  BsonBuilder.AppendAll
    (List.map (fun item => (fst item, BsonBuilder.of_Value (Node (snd item) nullptr))) items)
    (owning bson)
  = (Return tt, owning (bson ++ items)).
Proof.
  unfold BsonBuilder.AppendAll. revert bson.
  induction items as [|[key native] tl IH]; intros bson; simpl.
  - now rewrite app_nil_r.
  - rewrite (bind_return _ _ (owning bson) tt (owning (bson ++ [(key, native)])))
      by reflexivity.
    rewrite IH, <- app_assoc. reflexivity.
Qed.

(** X7: for a document whose entries are all nulls and scalars, constructing
    the builder from the tree is the same as appending the entries one by one
    with [Append(key, Value)] to an empty builder: both leave the entries'
    own payloads under their keys, in order. *)
Theorem flat_document_is_a_chain_of_value_appends :
  forall bv (items : list (string * bson_value_t)),
    BsonBuilder.from_value
      (Node bv (ParsedDocument
                  (List.map (fun item => (fst item, Node (snd item) nullptr)) items)))
    = Return (owning items)
    /\ BsonBuilder.AppendAll
         (List.map (fun item => (fst item, BsonBuilder.of_Value (Node (snd item) nullptr)))
            items)
         BsonBuilder.default
       = (Return tt, owning items).
Proof.
  intros bv items. split.
  - rewrite from_value_document. f_equal. f_equal.
    induction items as [|[key native] tl IH]; [reflexivity|].
    simpl. now rewrite IH.
  - apply (AppendAll_values items []).
Qed.

(** X8: embedding a built document.  A builder constructed from a Document
    tree and handed, through [Get()], to [Append(key, const bson_t* sub_bson)] of an
    outer builder leaves the outer builder as the traversal of the same tree
    under [key] would.  For a builder constructed from an Array tree the
    elements are the same, but [Append(key, const bson_t* sub_bson)] writes them as a
    document (type 0x03) where the traversal writes an array (type 0x04). *)
Theorem embedding_a_built_document :
  forall key bv doc array outer,
    (exists inner sub,
        BsonBuilder.from_value (Node bv (ParsedDocument doc)) = Return inner
        /\ BsonBuilder.Get inner = (Return sub, inner)
        /\ BsonBuilder.Append_bson key sub (owning outer)
           = BsonBuilder.bson_Get
               (BsonBuilder.AppendInto key (Node bv (ParsedDocument doc)))
               (owning outer))
    /\ (exists inner sub,
           BsonBuilder.from_value (Node bv (ParsedArray array)) = Return inner
           /\ BsonBuilder.Get inner = (Return sub, inner)
           /\ BsonBuilder.Append_bson key sub (owning outer)
              = (Return tt, owning (outer ++ [(key, V_DOCUMENT sub)]))
           /\ BsonBuilder.bson_Get
                (BsonBuilder.AppendInto key (Node bv (ParsedArray array)))
                (owning outer)
              = (Return tt, owning (outer ++ [(key, V_ARRAY sub)]))
           /\ type_code (V_DOCUMENT sub) = 0x03 /\ type_code (V_ARRAY sub) = 0x04).
Proof.
  intros key bv doc array outer. split.
  - do 2 eexists. split; [apply from_value_document|].
    split; [reflexivity|]. rewrite bson_Get_AppendInto. reflexivity.
  - do 2 eexists. split; [apply from_value_array|].
    split; [reflexivity|]. split; [reflexivity|].
    split; [|split; reflexivity]. rewrite bson_Get_AppendInto. reflexivity.
Qed.

(** X9: [AppendInto] leaves every element of the destination in place and
    adds, after them, nothing for a Missing node and exactly one element,
    under the given key, for any other node, however large the subtree; what
    it adds does not depend on the destination. *)
Theorem AppendInto_adds_at_most_one_element :
  forall key value dest,
    exists added,
      BsonBuilder.AppendInto key value dest = (Return tt, dest ++ added)
      /\ BsonBuilder.AppendInto key value [] = (Return tt, added)
      /\ bson_keys added = (if IsMissing value then [] else [key])
      /\ length added = (if IsMissing value then 0%nat else 1%nat).
Proof.
  intros key value dest. exists (encoded key value).
  rewrite !AppendInto_encoded. split; [reflexivity|]. split; [reflexivity|].
  destruct value as [|native [|doc|array]]; split; reflexivity.
Qed.

(** *** Array keys are pairwise different *)

Lemma index_key_inj i j : index_key i = index_key j -> i = j.
Proof. unfold index_key. intros H. apply (inj pretty) in H. lia. Qed.

Lemma present_from_ge i array x :
  In x (List.map fst
          (List.filter (fun p => present (snd p)) (combine (seq i (length array)) array))) ->
  (i <= x)%nat.
Proof.
  revert i. induction array as [|elem tl IH]; intros i H; simpl in H; [contradiction|].
  destruct (present elem); simpl in H.
  - destruct H as [<-|H]; [lia|]. apply IH in H. lia.
  - apply IH in H. lia.
Qed.

Lemma present_from_NoDup i array :
  NoDup (List.map fst
           (List.filter (fun p => present (snd p)) (combine (seq i (length array)) array))).
Proof.
  revert i. induction array as [|elem tl IH]; intros i; simpl; [constructor|].
  destruct (present elem); simpl; [|apply IH].
  constructor; [|apply IH].
  intros H. apply list_elem_of_In, present_from_ge in H. lia.
Qed.

Lemma present_from_length i array :
  length (List.filter (fun p => present (snd p)) (combine (seq i (length array)) array))
  = length (List.filter present array).
Proof.
  revert i. induction array as [|elem tl IH]; intros i; simpl; [reflexivity|].
  destruct (present elem); simpl; now rewrite IH.
Qed.

Lemma NoDup_map_index_key l : NoDup l -> NoDup (List.map index_key l).
Proof.
  induction 1 as [|x l Hx _ IH]; simpl; constructor; [|exact IH].
  intros H. apply list_elem_of_In, in_map_iff in H as (y & Hy & Hin).
  apply index_key_inj in Hy as ->. apply Hx. now apply list_elem_of_In.
Qed.

(** X10: an encoded array, at the root or nested, never holds two elements
    under the same key, and it holds as many elements as the array has
    elements that are not Missing (a document, in contrast, repeats a
    duplicate key as it is). *)
Theorem array_keys_never_repeat :
  forall bv array,
    (exists bson,
        BsonBuilder.from_value (Node bv (ParsedArray array)) = Return (owning bson)
        /\ NoDup (bson_keys bson)
        /\ bson_count_keys bson = length (List.filter present array))
    /\ (forall key dest,
           exists child,
             BsonBuilder.AppendInto key (Node bv (ParsedArray array)) dest
             = (Return tt, dest ++ [(key, V_ARRAY child)])
             /\ NoDup (bson_keys child)
             /\ bson_count_keys child = length (List.filter present array))
    /\ (forall key a b,
           exists bson,
             BsonBuilder.from_value
               (Node bv (ParsedDocument [(key, Node a nullptr); (key, Node b nullptr)]))
             = Return (owning bson)
             /\ bson_keys bson = [key; key]).
Proof.
  intros bv array.
  assert (Hkeys : NoDup (bson_keys
            (flat_map_from (fun i elem => encoded (pretty i) elem) 0%N array))).
  { rewrite array_keys. apply NoDup_map_index_key, present_from_NoDup. }
  assert (Hcount : bson_count_keys
            (flat_map_from (fun i elem => encoded (pretty i) elem) 0%N array)
          = length (List.filter present array)).
  { unfold bson_count_keys.
    rewrite <- (length_map fst). fold (bson_keys
      (flat_map_from (fun i elem => encoded (pretty i) elem) 0%N array)).
    rewrite array_keys. unfold present_indices.
    rewrite !length_map. apply present_from_length. }
  split; [|split].
  - eexists. split; [apply from_value_array|]. split; assumption.
  - intros key dest. eexists. split; [|split; eassumption].
    now rewrite AppendInto_encoded.
  - intros key a b. eexists. split; [apply from_value_document | reflexivity].
Qed.

(* ===================================================================== *)
(** ** Time points *)

(** X11: a time point is stored as whole milliseconds since the epoch, the
    remainder dropped toward the epoch: after the epoch the stored
    millisecond starts at or before the time point and ends after it, before
    the epoch it is the other way round, so that everything less than a
    millisecond away from the epoch, on either side, is stored as the epoch;
    whole milliseconds are stored exactly. *)
Theorem time_point_is_truncated_to_milliseconds :
  forall ticks_per_ms key ticks bson,
    0 < ticks_per_ms ->
    let ms := BsonBuilder.duration_cast_milliseconds ticks_per_ms ticks in
    BsonBuilder.Append_system_clock ticks_per_ms key ticks (owning bson)
    = (Return tt, owning (bson ++ [(key, V_DATE_TIME ms)]))
    /\ (0 <= ticks -> ms * ticks_per_ms <= ticks < (ms + 1) * ticks_per_ms)
    /\ (ticks <= 0 -> (ms - 1) * ticks_per_ms < ticks <= ms * ticks_per_ms)
    /\ (- ticks_per_ms < ticks < ticks_per_ms -> ms = 0)
    /\ (forall n,
           BsonBuilder.duration_cast_milliseconds ticks_per_ms (n * ticks_per_ms) = n).
Proof.
  intros ticks_per_ms key ticks bson Hpos ms. subst ms.
  unfold BsonBuilder.duration_cast_milliseconds.
  split; [reflexivity|].
  pose proof (Z.quot_rem' ticks ticks_per_ms) as Hqr.
  split; [|split; [|split]].
  - intros H. pose proof (Z.rem_bound_pos ticks ticks_per_ms H Hpos). nia.
  - intros H. pose proof (Z.rem_bound_pos_neg ticks ticks_per_ms Hpos H). nia.
  - intros H. apply Z.quot_small_iff; lia.
  - intros n. apply Z.quot_mul. lia.
Qed.

(** A nanosecond clock one tick before the epoch: stored as the epoch. *)
Lemma time_point_just_before_epoch :
  0 < 1000000
  /\ (let ms := BsonBuilder.duration_cast_milliseconds 1000000 (-1) in
      BsonBuilder.Append_system_clock 1000000 "t" (-1) (owning [])
      = (Return tt, owning ([] ++ [("t", V_DATE_TIME ms)]))
      /\ (0 <= -1 -> ms * 1000000 <= -1 < (ms + 1) * 1000000)
      /\ (-1 <= 0 -> (ms - 1) * 1000000 < -1 <= ms * 1000000)
      /\ (- 1000000 < -1 < 1000000 -> ms = 0)
      /\ (forall n, BsonBuilder.duration_cast_milliseconds 1000000 (n * 1000000) = n)).
Proof.
  assert (H : 0 < 1000000) by lia.
  split; [exact H | exact (time_point_is_truncated_to_milliseconds 1000000 "t" (-1) [] H)].
Defined.

(* ===================================================================== *)
(** ** C strings *)

Lemma until_null_no_null chars :
  ~ In Ascii.zero (list_ascii_of_string chars) -> BsonBuilder.until_null chars = chars.
Proof.
  induction chars as [|c tl IH]; intros H; simpl in *; [reflexivity|].
  destruct (Ascii.eqb_spec c Ascii.zero) as [->|_]; [exfalso; apply H; now left|].
  f_equal. apply IH. intros Hin. apply H. now right.
Qed.

Lemma until_null_cut text rest :
  ~ In Ascii.zero (list_ascii_of_string text) ->
  BsonBuilder.until_null (text +:+ String Ascii.zero rest) = text.
Proof.
  induction text as [|c tl IH]; intros H; [reflexivity|].
  change (String c tl +:+ String Ascii.zero rest)
    with (String c (tl +:+ String Ascii.zero rest)).
  simpl in *.
  destruct (Ascii.eqb_spec c Ascii.zero) as [->|_]; [exfalso; apply H; now left|].
  f_equal. apply IH. intros Hin. apply H. now right.
Qed.

(** X12: [Append(key, const char* value)] sees the characters up to the first null
    only: for a text without a null character, the call on the text followed
    by a terminator and anything else is the [string_view] call on the text
    alone, so what lies behind the terminator is neither checked nor written
    (a byte that is not valid UTF-8 there does not make the call throw). *)
Theorem cstr_append_stops_at_null :
  forall key text rest self,
    ~ In Ascii.zero (list_ascii_of_string text) ->
    BsonBuilder.Append_cstr key (text +:+ String Ascii.zero rest) self
    = BsonBuilder.Append_string key text self
    /\ BsonBuilder.Append_cstr key text self = BsonBuilder.Append_string key text self
    /\ (utf8.IsValid (bytes_of_string text) = true ->
        forall bson,
          BsonBuilder.Append_cstr key (text +:+ String Ascii.zero rest) (owning bson)
          = (Return tt, owning (bson ++ [(key, V_UTF8 text)]))).
Proof.
  intros key text rest self H. unfold BsonBuilder.Append_cstr.
  rewrite until_null_cut, until_null_no_null by assumption.
  split; [reflexivity|]. split; [reflexivity|].
  intros Hvalid bson. unfold BsonBuilder.Append_string. now rewrite Hvalid.
Qed.

(** The text [ok], its terminator and a lone continuation byte behind it. *)
Lemma cstr_append_stops_at_null_example :
  ~ In Ascii.zero (list_ascii_of_string "ok")
  /\ (BsonBuilder.Append_cstr "k"
        ("ok" +:+ String Ascii.zero (String (ascii_of_nat 128) EmptyString))
        BsonBuilder.default
      = BsonBuilder.Append_string "k" "ok" BsonBuilder.default
      /\ BsonBuilder.Append_cstr "k" "ok" BsonBuilder.default
         = BsonBuilder.Append_string "k" "ok" BsonBuilder.default
      /\ (utf8.IsValid (bytes_of_string "ok") = true ->
          forall bson,
            BsonBuilder.Append_cstr "k"
              ("ok" +:+ String Ascii.zero (String (ascii_of_nat 128) EmptyString))
              (owning bson)
            = (Return tt, owning (bson ++ [("k", V_UTF8 "ok")])))).
Proof.
  assert (H : ~ In Ascii.zero (list_ascii_of_string "ok")).
  { simpl. intros [H|[H|[]]]; discriminate H. }
  split; [exact H|].
  exact (cstr_append_stops_at_null "k" "ok"
           (String (ascii_of_nat 128) EmptyString) BsonBuilder.default H).
Defined.
